(** * Random multilayer perceptrons: construction and weight initialisation

    A shallow embedding of the two functions of
    [NeuralNet_FunctionApproximation.ipynb]:

    - [get_multilayer_perceptron], which builds a nest of
      [torch.nn.Sequential] containers around [torch.nn.Linear] layers and
      one activation object;
    - [init_weights], which is handed to [torch.nn.Module.apply] and redraws
      the parameters of every [Linear] it meets.

    Python objects live in a store and are named by their address, so that
    two references to one object are one address.  Floating-point values are
    symbolic: a tensor entry records which draw of the random generator it
    holds and the law that was asked for.  Feature counts are tensor sizes
    and are natural numbers; the hidden-layer count is a Python [int] and may
    be zero or negative.

    The builder nests one container per hidden layer, and both
    [Module.apply] and the forward pass walk that nest by Python recursion.
    The nesting the interpreter's recursion limit allows is a parameter of
    the two traversals; beyond it they raise [RecursionError].  The frames
    that the function handed to [apply], or a layer's own computation, needs
    on top of the traversal are counted as inside that parameter. *)

From Stdlib Require Import ZArith Lia.
From Stdlib Require QArith_base.
From stdpp Require Import base list strings.

Local Open Scope nat_scope.

(** ** Tensors *)

Module Torch.

Abbreviation Q := QArith_base.Q.

(** The law a draw was requested from.  [LibraryDefault] stands for whatever
    [Linear.reset_parameters] uses when a layer is constructed. *)
Inductive distribution : Type :=
| Normal (mean std : Q)
| LibraryDefault.

(** One floating-point entry: the [pos]-th draw of the generator, requested
    from [law]. *)
Record entry : Type := Draw { law : distribution; pos : nat }.

Record tensor : Type := Tensor { shape : list nat; data : list entry }.

Definition numel (sh : list nat) : nat := fold_right Nat.mul 1 sh.

(** ** Module objects and the store *)

Abbreviation addr := nat (only parsing).

Inductive module_obj : Type :=
| Linear (in_features out_features : nat) (weight bias : tensor)
| Tanh
| ReLU
| Sequential (children : list addr).

Record state : Type := State { heap : list module_obj; rng : nat }.

Inductive exn : Type :=
| NotImplementedError (msg : string)
| RecursionError
| RuntimeError.

(** A computation returns a value, raises a Python exception, or is stuck
    (a dangling address, which a store filled by constructor calls does not
    have).  [Raise] keeps the state at the point of the raise, so that
    effects made before it are visible. *)
Inductive outcome (A : Type) : Type :=
| Ret (a : A) (s : state)
| Raise (e : exn) (s : state)
| Stuck.
Arguments Ret {A} a s.
Arguments Raise {A} e s.
Arguments Stuck {A}.

Definition M (A : Type) : Type := state -> outcome A.

Definition ret {A} (a : A) : M A := fun s => Ret a s.

Definition bind {A B} (c : M A) (k : A -> M B) : M B :=
  fun s => match c s with
           | Ret a s' => k a s'
           | Raise e s' => Raise e s'
           | Stuck => Stuck
           end.

Definition raise {A} (e : exn) : M A := fun s => Raise e s.

Notation "x <- c1 ;; c2" := (bind c1 (fun x => c2))
  (at level 100, c1 at next level, right associativity).

Fixpoint for_each {X A} (xs : list X) (body : X -> A -> M A) (a : A) : M A :=
  match xs with
  | [] => ret a
  | x :: xs' => a' <- body x a ;; for_each xs' body a'
  end.

(** [range(n)]: empty when [n <= 0]. *)
Definition range (n : Z) : list Z := map Z.of_nat (seq 0 (Z.to_nat n)).

Definition alloc (o : module_obj) : M addr :=
  fun s => Ret (length (heap s)) (State (heap s ++ [o]) (rng s)).

Definition deref (m : addr) : M module_obj :=
  fun s => match heap s !! m with
           | Some o => Ret o s
           | None => Stuck
           end.

Definition store (m : addr) (o : module_obj) : M unit :=
  fun s => Ret tt (State (<[m:=o]> (heap s)) (rng s)).

(** In-place fill of a tensor: every one of its [numel] entries takes the
    next draw of the generator; the shape is kept. *)
Definition fill (d : distribution) (t : tensor) : M tensor :=
  fun s => let n := numel (shape t) in
           Ret (Tensor (shape t) (map (Draw d) (seq (rng s) n)))
               (State (heap s) (rng s + n)).

(** [torch.nn.init.normal_(t, mean, std)] and [t.normal_(mean, std)]. *)
Definition normal_ (t : tensor) (mean std : Q) : M tensor :=
  fill (Normal mean std) t.

(** [torch.nn.Linear(in_features, out_features)]: weight of shape
    [(out_features, in_features)], bias of shape [(out_features,)], both
    allocated empty and then filled by the library's default
    initialisation. *)
Definition nn_Linear (in_features out_features : nat) : M addr :=
  w <- fill LibraryDefault (Tensor [out_features; in_features] []) ;;
  b <- fill LibraryDefault (Tensor [out_features] []) ;;
  alloc (Linear in_features out_features w b).

Definition nn_Tanh : M addr := alloc Tanh.
Definition nn_ReLU : M addr := alloc ReLU.

(** [torch.nn.Sequential] registers its positional arguments, in order. *)
Definition nn_Sequential (args : list addr) : M addr := alloc (Sequential args).

(** [Module.children()]: the registered submodules, each distinct object
    once, at its first occurrence. *)
Fixpoint dedup (seen l : list addr) : list addr :=
  match l with
  | [] => []
  | x :: l' => if decide (x ∈ seen) then dedup seen l'
               else x :: dedup (x :: seen) l'
  end.

Definition children_of (o : module_obj) : list addr :=
  match o with
  | Sequential cs => dedup [] cs
  | _ => []
  end.

(** [Module.apply(fn)]:
<<
    for module in self.children(): module.apply(fn)
    fn(self)
    return self
>>
    This is Python recursion, one call of [apply] inside the other for each
    level of nesting.  [limit] is the number of nested calls of [apply] that
    the interpreter's recursion limit leaves room for; the call that would
    exceed it raises [RecursionError]. *)
Fixpoint apply_fuel (fuel : nat) (fn : addr -> M unit) (m : addr) : M addr :=
  match fuel with
  | 0 => raise RecursionError
  | S f =>
      o <- deref m ;;
      _ <- for_each (children_of o)
             (fun c (_ : unit) => _ <- apply_fuel f fn c ;; ret tt) tt ;;
      _ <- fn m ;;
      ret m
  end.

Definition Module_apply (limit : nat) (fn : addr -> M unit) (m : addr)
    : M addr :=
  apply_fuel limit fn m.

End Torch.

Import Torch.

(** ** The notebook's functions *)

Definition get_multilayer_perceptron
    (n_network n_class : nat) (n_hidden_layers : Z) (n_hidden_dimension : nat)
    (activation : string) : M addr :=
  activationfn <-
    (if String.eqb activation "tanh" then nn_Tanh
     else if String.eqb activation "relu" then nn_ReLU
     else raise (NotImplementedError "Activation function not implemented")) ;;
  l <- nn_Linear n_network n_hidden_dimension ;;
  model <- nn_Sequential [l; activationfn] ;;
  model <- for_each (range (n_hidden_layers - 1))
             (fun (i : Z) model =>
                l <- nn_Linear n_hidden_dimension n_hidden_dimension ;;
                nn_Sequential [model; l; activationfn])
             model ;;
  l <- nn_Linear n_hidden_dimension n_class ;;
  model <- nn_Sequential [model; l] ;;
  ret model.

Definition half : Q := QArith_base.Qmake 1 2.
Definition zero : Q := QArith_base.Qmake 0 1.

Definition init_weights (m : addr) : M unit :=
  o <- deref m ;;
  match o with
  | Linear i n w b =>
      w' <- normal_ w zero half ;;
      b' <- normal_ b zero half ;;
      store m (Linear i n w' b')
  | _ => ret tt
  end.

Definition empty_state : state := State [] 0.

(** ** Reading a network off the store *)

(** The layers in the order the forward pass runs them: a [Sequential] runs
    its registered modules in order, anything else is a layer of its own. *)
Fixpoint layers_fuel (fuel : nat) (h : list module_obj) (m : addr) : list addr :=
  match fuel with
  | 0 => []
  | S f =>
      match h !! m with
      | Some (Sequential cs) => flat_map (layers_fuel f h) cs
      | Some _ => [m]
      | None => []
      end
  end.

Definition layers (h : list module_obj) (m : addr) : list addr :=
  layers_fuel (S m) h m.

Inductive activation_kind : Type := KTanh | KReLU.

Inductive layer_desc : Type :=
| Affine (n_in n_out : nat)
| Activation (k : activation_kind).

Definition describe (h : list module_obj) (a : addr) : option layer_desc :=
  match h !! a with
  | Some (Linear i n _ _) => Some (Affine i n)
  | Some Tanh => Some (Activation KTanh)
  | Some ReLU => Some (Activation KReLU)
  | _ => None
  end.

Definition is_Linear (h : list module_obj) (a : addr) : bool :=
  match h !! a with
  | Some (Linear _ _ _ _) => true
  | _ => false
  end.

Definition is_activation (h : list module_obj) (a : addr) : bool :=
  match h !! a with
  | Some Tanh | Some ReLU => true
  | _ => false
  end.

(** The affine layers of a network: the distinct [Linear] objects among its
    layers. *)
Definition linear_layers (h : list module_obj) (m : addr) : list addr :=
  dedup [] (filter (fun a => is_Linear h a = true) (layers h m)).

(** Width bookkeeping along a layer sequence: an affine layer must take the
    current width and yields its output width, an activation keeps it. *)
Fixpoint chain (width : nat) (ls : list layer_desc) : option nat :=
  match ls with
  | [] => Some width
  | Affine i n :: ls' => if decide (i = width) then chain n ls' else None
  | Activation _ :: ls' => chain width ls'
  end.

Definition activation_of (activation : string) : option activation_kind :=
  if String.eqb activation "tanh" then Some KTanh
  else if String.eqb activation "relu" then Some KReLU
  else None.

Definition activation_obj (k : activation_kind) : module_obj :=
  match k with KTanh => Tanh | KReLU => ReLU end.

(** The layer sequence the builder is meant to produce, for [k] repetitions
    of the hidden block. *)
Definition mlp_layers (n_network n_class n_hidden_dimension k : nat)
    (act : activation_kind) : list layer_desc :=
  [Affine n_network n_hidden_dimension; Activation act]
  ++ concat (replicate k [Affine n_hidden_dimension n_hidden_dimension;
                          Activation act])
  ++ [Affine n_hidden_dimension n_class].


(** ** What the builder leaves in the store *)

Section Built.

Variables (n_network n_class n_hidden_dimension : nat).
Variable act : activation_kind.

(** A freshly constructed [Linear in n] at address [a]. *)
Definition linear_at (h : list module_obj) (a : addr) (i n : nat) : Prop :=
  exists w b, h !! a = Some (Linear i n w b)
              /\ shape w = [n; i] /\ shape b = [n].

(** The store after the first block and [k] rounds of the loop, for a
    builder that started at address [base]. *)
Record hidden_blocks (h : list module_obj) (base k : nat) : Prop := {
  hb_act : h !! base = Some (activation_obj act);
  hb_first : linear_at h (base + 1) n_network n_hidden_dimension;
  hb_seq0 : h !! (base + 2) = Some (Sequential [base + 1; base]);
  hb_linear : forall j, j < k ->
      linear_at h (base + 3 + 2 * j) n_hidden_dimension n_hidden_dimension;
  hb_seq : forall j, j < k ->
      h !! (base + 4 + 2 * j)
      = Some (Sequential [base + 2 + 2 * j; base + 3 + 2 * j; base])
}.

(** The finished network. *)
Record mlp_store (h : list module_obj) (base k : nat) : Prop := {
  ms_blocks : hidden_blocks h base k;
  ms_length : length h = base + 5 + 2 * k;
  ms_last : linear_at h (base + 3 + 2 * k) n_hidden_dimension n_class;
  ms_root : h !! (base + 4 + 2 * k)
            = Some (Sequential [base + 2 + 2 * k; base + 3 + 2 * k])
}.

End Built.

(** ** Stores the traversal is defined on *)

(** A container is built from objects that already exist, so in a store
    filled by constructor calls every registered child is older than its
    container. *)
Definition heap_wf (h : list module_obj) : Prop :=
  forall a cs c, h !! a = Some (Sequential cs) -> c ∈ cs -> c < a.

Definition closed_obj (a : addr) (o : module_obj) : bool :=
  match o with
  | Sequential cs => forallb (fun c => c <? a) cs
  | _ => true
  end.

Fixpoint wf_from (a : addr) (h : list module_obj) : bool :=
  match h with
  | [] => true
  | o :: h' => closed_obj a o && wf_from (S a) h'
  end.

(** [descendant h d m a]: [a] is [m] itself ([d = 0]) or is registered [d]
    containers below [m]. *)
Inductive descendant (h : list module_obj) : nat -> addr -> addr -> Prop :=
| desc_self m : is_Some (h !! m) -> descendant h 0 m m
| desc_child d m cs c a :
    h !! m = Some (Sequential cs) -> c ∈ cs ->
    descendant h d c a -> descendant h (S d) m a.

(** The calls [fn(a)] that [m.apply(fn)] makes within a budget of [fuel]
    nested calls, in order, when [fn] leaves the containers as they are. *)
Fixpoint visits_fuel (fuel : nat) (h : list module_obj) (m : addr) : list addr :=
  match fuel with
  | 0 => []
  | S f =>
      match h !! m with
      | Some o => flat_map (visits_fuel f h) (children_of o) ++ [m]
      | None => []
      end
  end.

Definition visits (h : list module_obj) (m : addr) : list addr :=
  visits_fuel (S m) h m.

(** [for run in range(nruns): net.apply(init_weights)] *)
Fixpoint repeat_apply (limit nruns : nat) (fn : addr -> M unit) (m : addr)
    : M unit :=
  match nruns with
  | 0 => ret tt
  | S n => _ <- Module_apply limit fn m ;; repeat_apply limit n fn m
  end.

(** Every object below [m] lies fewer than [limit] containers deep, [m]
    itself being at depth [0]: the nesting that [limit] nested calls can
    walk. *)
Definition nested_within (h : list module_obj) (limit : nat) (m : addr)
    : Prop :=
  forall d a, descendant h d m a -> d < limit.

(** A call that ends in the state [s'], having returned [a] or raised
    [RecursionError]. *)
Definition ends_in {A} (c : outcome A) (a : A) (s' : state) : Prop :=
  c = Ret a s' \/ c = Raise RecursionError s'.

(** ** What one call of [init_weights] does to the state *)

Definition redraw (t : tensor) (start : nat) : tensor :=
  Tensor (shape t) (map (Draw (Normal zero half)) (seq start (numel (shape t)))).

Definition reinit (m : addr) (s : state) : state :=
  match heap s !! m with
  | Some (Linear i n w b) =>
      State (<[m := Linear i n (redraw w (rng s))
                      (redraw b (rng s + numel (shape w)))]> (heap s))
            (rng s + numel (shape w) + numel (shape b))
  | _ => s
  end.

Definition reinit_all (l : list addr) (s : state) : state :=
  foldl (fun s a => reinit a s) s l.

(** The parameter entries of an object: weight, then bias. *)
Definition entries (o : module_obj) : list entry :=
  match o with
  | Linear _ _ w b => data w ++ data b
  | _ => []
  end.

(** A tensor whose storage has the size its shape asks for. *)
Definition sized (t : tensor) : Prop := length (data t) = numel (shape t).

(** Same object up to the values of its parameters: same kind, same
    features, same registered children, same shapes, storage still of the
    size of the shape. *)
Definition same_shape (o o' : module_obj) : Prop :=
  match o, o' with
  | Linear i n w b, Linear i' n' w' b' =>
      i = i' /\ n = n' /\ shape w = shape w' /\ shape b = shape b'
      /\ (sized w -> sized w') /\ (sized b -> sized b')
  | Tanh, Tanh | ReLU, ReLU => True
  | Sequential cs, Sequential cs' => cs = cs'
  | _, _ => False
  end.

Definition shape_preserved (h h' : list module_obj) : Prop :=
  length h = length h'
  /\ forall a o, h !! a = Some o ->
                 exists o', h' !! a = Some o' /\ same_shape o o'.

(** An entry drawn from [Normal(0, 0.5)] at a generator position in
    [[lo, hi)]. *)
Definition fresh_normal (lo hi : nat) (e : entry) : Prop :=
  law e = Normal zero half /\ lo <= pos e < hi.

(** ** Names used by the proofs *)

(** The activation selection at the head of the builder. *)
Definition select_activation (activation : string) : M addr :=
  if String.eqb activation "tanh" then nn_Tanh
  else if String.eqb activation "relu" then nn_ReLU
  else raise (NotImplementedError "Activation function not implemented").

(** Addresses of the layers of the stack of hidden blocks, in forward
    order: the activation object [base] recurs after every affine layer. *)
Definition stack_layers (base j : nat) : list addr :=
  [base + 1; base] ++ flat_map (fun i => [base + 3 + 2 * i; base]) (seq 0 j).

(** Address of the outermost container of a network built from [base]. *)
Definition root_of (base k : nat) : addr := base + 4 + 2 * k.

(** A [Linear] whose parameters are all draws from [Normal(0, 0.5)] at
    generator positions in [[lo, hi)]. *)
Definition redrawn (lo hi : nat) (o : module_obj) : Prop :=
  match o with
  | Linear _ _ w b =>
      sized w /\ sized b /\ Forall (fresh_normal lo hi) (data w ++ data b)
  | _ => False
  end.

(** No two parameter entries of the objects called on hold the same
    draw. *)
Definition distinct_draws (h : list module_obj) (l : list addr) : Prop :=
  forall a1 a2 o1 o2 j1 j2 e1 e2,
    a1 ∈ l -> a2 ∈ l ->
    h !! a1 = Some o1 -> h !! a2 = Some o2 ->
    entries o1 !! j1 = Some e1 -> entries o2 !! j2 = Some e2 ->
    pos e1 = pos e2 -> a1 = a2 /\ j1 = j2.

(** ** Parameter counts *)

(** Number of parameter entries an object asks for: [weight.numel() +
    bias.numel()] for a [Linear], none otherwise. *)
Definition n_params (o : module_obj) : nat :=
  match o with
  | Linear _ _ w b => numel (shape w) + numel (shape b)
  | _ => 0
  end.

Definition params_at (h : list module_obj) (a : addr) : nat :=
  from_option n_params 0 (h !! a).

(** Parameters of a network: those of its distinct [Linear] layers. *)
Definition param_count (h : list module_obj) (root : addr) : nat :=
  sum_list (params_at h <$> linear_layers h root).

(** ** The forward pass, on shapes *)

(** [net(x)] with the values left out: what is kept is the shape of the
    tensor handed from layer to layer.  A [Linear] takes a tensor whose last
    dimension is [in_features] and replaces it by [out_features]; on any
    other shape the library raises [RuntimeError].  An activation keeps the
    shape; a [Sequential] calls its registered modules in order, which is
    Python recursion again: [limit] is the number of nested module calls
    that the interpreter's recursion limit leaves room for, and the call
    that would exceed it raises [RecursionError]. *)
Inductive forward_result : Type :=
| Output (sh : list nat)
| Fails (e : exn)
| NoModule.

Definition linear_shape (in_features out_features : nat) (x : list nat)
    : forward_result :=
  match last x with
  | Some d => if decide (d = in_features)
              then Output (removelast x ++ [out_features])
              else Fails RuntimeError
  | None => Fails RuntimeError
  end.

Fixpoint forward_each (run : addr -> list nat -> forward_result)
    (cs : list addr) (x : list nat) : forward_result :=
  match cs with
  | [] => Output x
  | c :: cs' =>
      match run c x with
      | Output y => forward_each run cs' y
      | r => r
      end
  end.

Fixpoint forward_fuel (fuel : nat) (h : list module_obj) (m : addr)
    (x : list nat) : forward_result :=
  match fuel with
  | 0 => Fails RecursionError
  | S f =>
      match h !! m with
      | Some (Linear i n _ _) => linear_shape i n x
      | Some Tanh | Some ReLU => Output x
      | Some (Sequential cs) => forward_each (forward_fuel f h) cs x
      | None => NoModule
      end
  end.

Definition forward (limit : nat) (h : list module_obj) (m : addr)
    (x : list nat) : forward_result :=
  forward_fuel limit h m x.

(** [net(x)] as a step of a program: the store is read, not written. *)
Definition call_module (limit : nat) (m : addr) (x : list nat)
    : M (list nat) :=
  fun s => match forward limit (heap s) m x with
           | Output y => Ret y s
           | Fails e => Raise e s
           | NoModule => Stuck
           end.

(** ** The notebook's sweep over activation functions *)

(** The loop
<<
    for ax, afn in zip([ax1, ax2], ['tanh', 'relu']):
        net = get_multilayer_perceptron(1, 1, num_layers, n_hidden_dimension, afn)
        for run in range(nruns):
            net.apply(init_weights)
            for i in x:
                i = torch.Tensor([i])
                y_new.append(torch.squeeze(net(i)).detach().numpy())
>>
    with [x] of [n_points] samples.  Of [net(i)] the shape is kept, of the
    list [y_new] and of the plot nothing: they touch neither the store nor
    the generator.  [apply_limit] and [call_limit] are the nesting that the
    interpreter's recursion limit allows to [apply] and to module calls. *)
Definition evaluate_points (call_limit : nat) (net : addr) (n_points : nat)
    : M unit :=
  for_each (seq 0 n_points)
    (fun (_ : nat) (_ : unit) => _ <- call_module call_limit net [1] ;; ret tt)
    tt.

Definition activation_sweep (apply_limit call_limit : nat) (num_layers : Z)
    (n_hidden_dimension nruns n_points : nat) : M unit :=
  for_each ["tanh"; "relu"]%string
    (fun afn (_ : unit) =>
       net <- get_multilayer_perceptron 1 1 num_layers n_hidden_dimension afn ;;
       for_each (seq 0 nruns)
         (fun (_ : nat) (_ : unit) =>
            _ <- Module_apply apply_limit init_weights net ;;
            evaluate_points call_limit net n_points)
         tt)
    tt.


(** ** A network to run the statements on *)

Definition demo_state : state :=
  match get_multilayer_perceptron 2 1 3 4 "tanh" empty_state with
  | Ret _ s' => s'
  | _ => empty_state
  end.

Definition demo_root : addr := 8.

(** A second network in the same store, as [net7] follows [net3]. *)
Definition demo_state2 : state :=
  match get_multilayer_perceptron 2 1 7 4 "tanh" demo_state with
  | Ret _ s' => s'
  | _ => demo_state
  end.

Definition demo_root2 : addr := 25.

(** * Proofs *)

(** ** The store only grows under construction *)

Lemma lookup_snoc_new (h : list module_obj) (o : module_obj) :
  (h ++ [o]) !! length h = Some o.
Proof. by apply list_lookup_middle. Qed.

Lemma lookup_grow (h ext : list module_obj) (a : addr) (o : module_obj) :
  h !! a = Some o -> (h ++ ext) !! a = Some o.
Proof. apply lookup_app_l_Some. Qed.

Lemma linear_at_grow h ext a i n :
  linear_at h a i n -> linear_at (h ++ ext) a i n.
Proof.
  intros (w & b & Ha & Hw & Hb). exists w, b. eauto using lookup_grow.
Qed.

Lemma hidden_blocks_grow ni nh act h ext base k :
  hidden_blocks ni nh act h base k ->
  hidden_blocks ni nh act (h ++ ext) base k.
Proof.
  intros [Ha Hf Hs Hl Hq]. constructor;
    eauto using lookup_grow, linear_at_grow.
Qed.

Lemma nn_Linear_run (i n : nat) (s : state) :
  exists w b r,
    nn_Linear i n s
    = Ret (length (heap s)) (State (heap s ++ [Linear i n w b]) r)
    /\ shape w = [n; i] /\ shape b = [n].
Proof. unfold nn_Linear, bind, fill, alloc. simpl. eauto 10. Qed.

Lemma nn_Linear_at i n h w b :
  shape w = [n; i] -> shape b = [n] ->
  linear_at (h ++ [Linear i n w b]) (length h) i n.
Proof. intros. exists w, b. eauto using lookup_snoc_new. Qed.

Section BuildLoop.

Variables (n_network n_hidden_dimension : nat) (act : activation_kind).
Variable base : addr.

Let body : Z -> addr -> M addr :=
  fun _ model =>
    l <- nn_Linear n_hidden_dimension n_hidden_dimension ;;
    nn_Sequential [model; l; base].

(** One round of the loop adds one hidden block on top of the stack. *)
Lemma hidden_block_step (s : state) (k : nat) (i : Z) :
  length (heap s) = base + 3 + 2 * k ->
  hidden_blocks n_network n_hidden_dimension act (heap s) base k ->
  exists s',
    body i (base + 2 + 2 * k) s = Ret (base + 2 + 2 * S k) s'
    /\ length (heap s') = base + 3 + 2 * S k
    /\ hidden_blocks n_network n_hidden_dimension act (heap s') base (S k)
    /\ exists ext, heap s' = heap s ++ ext.
Proof.
  intros Hlen Hb. unfold body, bind.
  destruct (nn_Linear_run n_hidden_dimension n_hidden_dimension s)
    as (w & b & r & -> & Hw & Hbi).
  unfold nn_Sequential, alloc. simpl.
  eexists. split.
  { rewrite length_app, Hlen. simpl length. f_equal. lia. }
  cbn [heap]. split. { rewrite !length_app. simpl. lia. }
  split; [| by eexists; rewrite <- app_assoc].
  pose proof (nn_Linear_at n_hidden_dimension n_hidden_dimension (heap s) w b Hw Hbi)
    as Hnew.
  destruct Hb as [Ha Hf Hs Hl Hq]. constructor.
  - by do 2 apply lookup_grow.
  - by do 2 apply linear_at_grow.
  - by do 2 apply lookup_grow.
  - intros j Hj. destruct (decide (j = k)) as [-> | Hne].
    + apply linear_at_grow. by replace (base + 3 + 2 * k) with (length (heap s)).
    + do 2 apply linear_at_grow. apply Hl. lia.
  - intros j Hj. destruct (decide (j = k)) as [-> | Hne].
    + replace (base + 4 + 2 * k)
        with (length (heap s ++ [Linear n_hidden_dimension n_hidden_dimension w b]))
        by (rewrite length_app; simpl; lia).
      rewrite lookup_snoc_new. repeat (f_equal; try lia).
    + do 2 apply lookup_grow. apply Hq. lia.
Qed.

Lemma hidden_block_loop (xs : list Z) (s : state) (k : nat) :
  length (heap s) = base + 3 + 2 * k ->
  hidden_blocks n_network n_hidden_dimension act (heap s) base k ->
  exists s',
    for_each xs body (base + 2 + 2 * k) s
    = Ret (base + 2 + 2 * (k + length xs)) s'
    /\ length (heap s') = base + 3 + 2 * (k + length xs)
    /\ hidden_blocks n_network n_hidden_dimension act (heap s') base
         (k + length xs)
    /\ exists ext, heap s' = heap s ++ ext.
Proof.
  revert s k. induction xs as [| x xs IH]; intros s k Hlen Hb.
  - exists s. cbn [for_each length]. rewrite Nat.add_0_r.
    split; [reflexivity | split; [done | split; [done |]]].
    exists []. by rewrite app_nil_r.
  - destruct (hidden_block_step s k x Hlen Hb) as (s1 & Hrun & Hlen1 & Hb1 & ext1 & He1).
    destruct (IH s1 (S k) Hlen1 Hb1) as (s2 & Hrun2 & Hlen2 & Hb2 & ext2 & He2).
    exists s2. cbn [for_each length]. unfold bind at 1. rewrite Hrun.
    replace (k + S (length xs)) with (S k + length xs) by lia.
    split; [done | split; [done | split; [done |]]].
    exists (ext1 ++ ext2). by rewrite He2, He1, app_assoc.
Qed.

End BuildLoop.

(** ** The builder *)

Lemma select_activation_supported activation act :
  activation_of activation = Some act ->
  select_activation activation = alloc (activation_obj act).
Proof.
  unfold activation_of, select_activation.
  destruct (String.eqb activation "tanh"); [by intros [= <-] |].
  destruct (String.eqb activation "relu"); [by intros [= <-] | done].
Qed.

Lemma select_activation_unsupported activation :
  activation_of activation = None ->
  select_activation activation
  = raise (NotImplementedError "Activation function not implemented").
Proof.
  unfold activation_of, select_activation.
  destruct (String.eqb activation "tanh"); [done |].
  by destruct (String.eqb activation "relu").
Qed.

Lemma range_length (n : Z) : length (range n) = Z.to_nat n.
Proof. unfold range. by rewrite length_map, length_seq. Qed.

(** A supported activation makes the builder return, and the store then
    holds the network described by [mlp_store] on top of the old store. *)
Lemma build_run n_network n_class n_hidden_layers n_hidden_dimension
    activation act (s : state) :
  activation_of activation = Some act ->
  exists s',
    get_multilayer_perceptron n_network n_class n_hidden_layers
      n_hidden_dimension activation s
    = Ret (length (heap s) + 4 + 2 * Z.to_nat (n_hidden_layers - 1)) s'
    /\ mlp_store n_network n_class n_hidden_dimension act (heap s')
         (length (heap s)) (Z.to_nat (n_hidden_layers - 1))
    /\ exists ext, heap s' = heap s ++ ext.
Proof.
  intros Hact. unfold get_multilayer_perceptron.
  fold (select_activation activation).
  rewrite (select_activation_supported _ _ Hact).
  set (base := length (heap s)). set (k := Z.to_nat (n_hidden_layers - 1)).
  unfold bind at 1. unfold alloc at 1. fold base.
  set (s0 := State (heap s ++ [activation_obj act]) (rng s)).
  unfold bind at 1.
  destruct (nn_Linear_run n_network n_hidden_dimension s0)
    as (w & b & r & -> & Hw & Hbi).
  unfold bind at 1. unfold nn_Sequential at 1, alloc at 1. cbn [heap rng].
  set (s1 := State _ r).
  assert (Hlen0 : length (heap s0) = base + 1).
  { subst s0. cbn [heap]. rewrite length_app. simpl. lia. }
  assert (Hlen1 : length (heap s1) = base + 3 + 2 * 0).
  { subst s1. cbn [heap]. rewrite !length_app, Hlen0. simpl. lia. }
  assert (Hb1 : hidden_blocks n_network n_hidden_dimension act (heap s1) base 0).
  { subst s1. cbn [heap]. constructor.
    - do 2 apply lookup_grow. subst s0. apply lookup_snoc_new.
    - apply linear_at_grow. rewrite <- Hlen0. by apply nn_Linear_at.
    - replace (base + 2) with (length (heap s0 ++ [Linear n_network n_hidden_dimension w b]))
        by (rewrite length_app, Hlen0; simpl; lia).
      rewrite Hlen0. apply lookup_snoc_new.
    - intros j Hj. lia.
    - intros j Hj. lia. }
  rewrite !length_app, Hlen0. cbn [length].
  replace (base + 1 + 1) with (base + 2 + 2 * 0) by lia.
  unfold bind at 1.
  destruct (hidden_block_loop n_network n_hidden_dimension act base
              (range (n_hidden_layers - 1)) s1 0 Hlen1 Hb1)
    as (s2 & -> & Hlen2 & Hb2 & ext2 & He2).
  rewrite range_length in *. fold k in Hlen2, Hb2 |- *. cbn [Nat.add] in *.
  unfold bind at 1.
  destruct (nn_Linear_run n_hidden_dimension n_class s2)
    as (w' & b' & r' & -> & Hw' & Hbi').
  unfold bind, nn_Sequential, alloc, ret. cbn [heap rng].
  eexists. split; [| split].
  - rewrite length_app, Hlen2. cbn [length]. f_equal. lia.
  - cbn [heap]. constructor.
    + by do 2 apply hidden_blocks_grow.
    + rewrite !length_app, Hlen2. simpl. lia.
    + apply linear_at_grow. rewrite <- Hlen2. by apply nn_Linear_at.
    + replace (base + 4 + 2 * k)
        with (length (heap s2 ++ [Linear n_hidden_dimension n_class w' b']))
        by (rewrite length_app, Hlen2; simpl; lia).
      apply lookup_snoc_new.
  - cbn [heap]. rewrite He2. subst s1 s0. cbn [heap].
    eexists. rewrite <- !app_assoc. reflexivity.
Qed.

(** ** The layers of a built network *)

Lemma stack_layers_S base j :
  stack_layers base (S j) = stack_layers base j ++ [base + 3 + 2 * j; base].
Proof.
  unfold stack_layers. rewrite seq_S, flat_map_app. cbn [flat_map Nat.add].
  by rewrite app_nil_r, <- app_assoc.
Qed.

Lemma layers_fuel_leaf (act : activation_kind) (h : list module_obj) f a :
  (h !! a = Some (activation_obj act) \/ exists i n, linear_at h a i n) ->
  layers_fuel (S f) h a = [a].
Proof.
  cbn [layers_fuel].
  intros [-> | (i & n & w & b & -> & _)]; [by destruct act | done].
Qed.

Section BuiltLayers.

Variables (n_network n_class n_hidden_dimension : nat) (act : activation_kind).
Variables (h : list module_obj) (base k : nat).
Hypothesis Hblocks : hidden_blocks n_network n_hidden_dimension act h base k.

Lemma layers_fuel_stack j f :
  j <= k -> j + 2 <= f ->
  layers_fuel f h (base + 2 + 2 * j) = stack_layers base j.
Proof.
  revert f. induction j as [| j IH]; intros f Hj Hf.
  - destruct f as [| [| f]]; [lia | lia |].
    replace (base + 2 + 2 * 0) with (base + 2) by lia.
    change (layers_fuel (S (S f)) h (base + 2))
      with (match h !! (base + 2) with
            | Some (Sequential cs) => flat_map (layers_fuel (S f) h) cs
            | Some _ => [base + 2]
            | None => []
            end).
    rewrite (hb_seq0 _ _ _ _ _ _ Hblocks).
    cbn [flat_map]. rewrite !(layers_fuel_leaf act).
    + done.
    + left. apply Hblocks.
    + right. do 2 eexists. apply Hblocks.
  - destruct f as [| [| f]]; [lia | lia |].
    replace (base + 2 + 2 * S j) with (base + 4 + 2 * j) by lia.
    change (layers_fuel (S (S f)) h (base + 4 + 2 * j))
      with (match h !! (base + 4 + 2 * j) with
            | Some (Sequential cs) => flat_map (layers_fuel (S f) h) cs
            | Some _ => [base + 4 + 2 * j]
            | None => []
            end).
    rewrite (hb_seq _ _ _ _ _ _ Hblocks j) by lia.
    cbn [flat_map]. rewrite IH by lia. rewrite !(layers_fuel_leaf act).
    + rewrite stack_layers_S. by rewrite app_nil_r.
    + left. apply Hblocks.
    + right. do 2 eexists. apply Hblocks. lia.
Qed.

Lemma describe_stack j :
  j <= k ->
  map (describe h) (stack_layers base j)
  = map Some ([Affine n_network n_hidden_dimension; Activation act]
              ++ concat (replicate j [Affine n_hidden_dimension n_hidden_dimension;
                                      Activation act])).
Proof.
  assert (Hd : describe h base = Some (Activation act)).
  { unfold describe. rewrite (hb_act _ _ _ _ _ _ Hblocks). by destruct act. }
  induction j as [| j IH]; intros Hj.
  - unfold stack_layers. cbn [seq flat_map replicate concat app map].
    rewrite Hd. f_equal. unfold describe.
    by destruct (hb_first _ _ _ _ _ _ Hblocks) as (w & b & -> & _).
  - assert (Hx : describe h (base + 3 + 2 * j)
                 = Some (Affine n_hidden_dimension n_hidden_dimension)).
    { unfold describe.
      by destruct (hb_linear _ _ _ _ _ _ Hblocks j ltac:(lia)) as (w & b & -> & _). }
    rewrite stack_layers_S, map_app, IH by lia.
    rewrite replicate_S_end, concat_app. cbn [concat map]. rewrite Hx, Hd.
    rewrite app_nil_r, app_assoc, !map_app. reflexivity.
Qed.

Lemma is_Linear_base : is_Linear h base = false.
Proof. unfold is_Linear. rewrite (hb_act _ _ _ _ _ _ Hblocks). by destruct act. Qed.

Lemma is_activation_base : is_activation h base = true.
Proof.
  unfold is_activation. rewrite (hb_act _ _ _ _ _ _ Hblocks). by destruct act.
Qed.

Lemma linear_at_is_Linear a i n : linear_at h a i n -> is_Linear h a = true.
Proof. intros (w & b & Ha & _). unfold is_Linear. by rewrite Ha. Qed.

Lemma linear_at_not_activation a i n :
  linear_at h a i n -> is_activation h a = false.
Proof. intros (w & b & Ha & _). unfold is_activation. by rewrite Ha. Qed.

Lemma filter_Linear_stack j :
  j <= k ->
  filter (fun a => is_Linear h a = true) (stack_layers base j)
  = (base + 1) :: ((fun i => base + 3 + 2 * i) <$> seq 0 j).
Proof.
  induction j as [| j IH]; intros Hj.
  - unfold stack_layers. cbn [seq flat_map app].
    rewrite filter_cons_True
      by (eapply linear_at_is_Linear, Hblocks).
    rewrite filter_cons_False by (rewrite is_Linear_base; done).
    done.
  - rewrite stack_layers_S, filter_app, IH by lia.
    rewrite filter_cons_True
      by (eapply linear_at_is_Linear, Hblocks; lia).
    rewrite filter_cons_False by (rewrite is_Linear_base; done).
    rewrite filter_nil, seq_S, fmap_app. done.
Qed.

Lemma filter_activation_stack j :
  j <= k ->
  filter (fun a => is_activation h a = true) (stack_layers base j)
  = replicate (S j) base.
Proof.
  induction j as [| j IH]; intros Hj.
  - unfold stack_layers. cbn [seq flat_map app map].
    rewrite filter_cons_False
      by (erewrite linear_at_not_activation; [done | apply Hblocks]).
    rewrite filter_cons_True by apply is_activation_base.
    done.
  - rewrite stack_layers_S, filter_app, IH by lia.
    rewrite filter_cons_False
      by (erewrite linear_at_not_activation; [done | apply Hblocks; lia]).
    rewrite filter_cons_True by apply is_activation_base.
    rewrite filter_nil. by rewrite (replicate_S_end (S j)).
Qed.

End BuiltLayers.

Lemma dedup_NoDup (seen l : list addr) :
  NoDup l -> (forall x, x ∈ l -> x ∉ seen) -> dedup seen l = l.
Proof.
  revert seen. induction l as [| x l IH]; intros seen Hnd Hseen; [done |].
  apply NoDup_cons in Hnd as [Hx Hnd]. cbn [dedup].
  destruct (decide (x ∈ seen)) as [Hin | _].
  - exfalso. eapply Hseen; [left | done].
  - f_equal. apply IH; [done |].
    intros y Hy [-> | Hys]%elem_of_cons; [done |].
    eapply Hseen; [by right | done].
Qed.

Section BuiltNetwork.

Variables (n_network n_class n_hidden_dimension : nat) (act : activation_kind).
Variables (h : list module_obj) (base k : nat).
Hypothesis Hstore : mlp_store n_network n_class n_hidden_dimension act h base k.

Let Hblocks := ms_blocks _ _ _ _ _ _ _ Hstore.

Lemma layers_mlp :
  layers h (root_of base k) = stack_layers base k ++ [base + 3 + 2 * k].
Proof.
  unfold layers, root_of.
  change (layers_fuel (S (base + 4 + 2 * k)) h (base + 4 + 2 * k))
    with (match h !! (base + 4 + 2 * k) with
          | Some (Sequential cs) => flat_map (layers_fuel (base + 4 + 2 * k) h) cs
          | Some _ => [base + 4 + 2 * k]
          | None => []
          end).
  rewrite (ms_root _ _ _ _ _ _ _ Hstore). cbn [flat_map].
  rewrite (layers_fuel_stack _ _ _ _ _ _ Hblocks) by lia.
  replace (base + 4 + 2 * k) with (S (base + 3 + 2 * k)) by lia.
  rewrite (layers_fuel_leaf act h (base + 3 + 2 * k) (base + 3 + 2 * k)).
  - by rewrite app_nil_r.
  - right. exists n_hidden_dimension, n_class. apply Hstore.
Qed.

Lemma describe_mlp :
  map (describe h) (layers h (root_of base k))
  = map Some (mlp_layers n_network n_class n_hidden_dimension k act).
Proof.
  assert (Hx : describe h (base + 3 + 2 * k)
               = Some (Affine n_hidden_dimension n_class)).
  { unfold describe.
    by destruct (ms_last _ _ _ _ _ _ _ Hstore) as (w & b & -> & _). }
  rewrite layers_mlp, map_app, (describe_stack _ _ _ _ _ _ Hblocks) by lia.
  unfold mlp_layers. cbn [map]. rewrite Hx.
  rewrite !map_app. reflexivity.
Qed.

Lemma linear_layers_mlp :
  linear_layers h (root_of base k)
  = (base + 1) :: ((fun i => base + 3 + 2 * i) <$> seq 0 (S k)).
Proof.
  unfold linear_layers. rewrite layers_mlp, filter_app.
  rewrite (filter_Linear_stack _ _ _ _ _ _ Hblocks) by lia.
  rewrite filter_cons_True
    by (eapply linear_at_is_Linear, (ms_last _ _ _ _ _ _ _ Hstore)).
  rewrite filter_nil.
  replace ((base + 1 :: ((fun i => base + 3 + 2 * i) <$> seq 0 k))
           ++ [base + 3 + 2 * k])
    with (base + 1 :: ((fun i => base + 3 + 2 * i) <$> seq 0 (S k)))
    by (rewrite seq_S, fmap_app; reflexivity).
  apply dedup_NoDup; [| intros x _; apply not_elem_of_nil].
  apply NoDup_cons. split.
  - intros (i & Hi & _)%list_elem_of_fmap. lia.
  - apply NoDup_fmap_2; [intros i j; lia | apply NoDup_seq].
Qed.

Lemma activation_layers_mlp :
  filter (fun a => is_activation h a = true) (layers h (root_of base k))
  = replicate (S k) base.
Proof.
  rewrite layers_mlp, filter_app.
  rewrite (filter_activation_stack _ _ _ _ _ _ Hblocks) by lia.
  rewrite filter_cons_False
    by (erewrite linear_at_not_activation;
        [done | apply (ms_last _ _ _ _ _ _ _ Hstore)]).
  by rewrite filter_nil, app_nil_r.
Qed.

(** Bounds on the members of a literal list of children. *)
Local Ltac children_bound H :=
  repeat (apply elem_of_cons in H as [-> | H]; [lia |]);
  by apply not_elem_of_nil in H.

(** The objects at and above [base]: the activation at [base], [Linear]
    layers, and containers of older objects. *)
Lemma mlp_store_cases (x : addr) (o : module_obj) :
  base <= x -> h !! x = Some o ->
  x = base
  \/ (exists i n w b, o = Linear i n w b)
  \/ (exists cs, o = Sequential cs /\ forall c, c ∈ cs -> base <= c < x).
Proof.
  intros Hx Hlook.
  pose proof (lookup_lt_Some _ _ _ Hlook) as Hlt.
  rewrite (ms_length _ _ _ _ _ _ _ Hstore) in Hlt.
  assert (Hlin : forall i n, linear_at h x i n ->
                   exists i n w b, o = Linear i n w b).
  { intros i n (w & b & Hl & _). rewrite Hl in Hlook.
    injection Hlook as <-. eauto. }
  assert (Hseq : forall cs, h !! x = Some (Sequential cs) ->
                   (forall c, c ∈ cs -> base <= c < x) ->
                   exists cs, o = Sequential cs
                              /\ forall c, c ∈ cs -> base <= c < x).
  { intros cs Hl Hcs. rewrite Hl in Hlook. injection Hlook as <-. eauto. }
  destruct (decide (x = base)) as [| Hne]; [by left | right].
  destruct (decide (x = base + 1)) as [-> |];
    [left; eapply Hlin, (hb_first _ _ _ _ _ _ Hblocks) |].
  destruct (decide (x = base + 2)) as [-> |].
  { right. eapply Hseq; [apply (hb_seq0 _ _ _ _ _ _ Hblocks) |].
    intros c Hc. children_bound Hc. }
  destruct (decide (x = base + 3 + 2 * k)) as [-> |];
    [left; eapply Hlin, (ms_last _ _ _ _ _ _ _ Hstore) |].
  destruct (decide (x = base + 4 + 2 * k)) as [-> |].
  { right. eapply Hseq; [apply (ms_root _ _ _ _ _ _ _ Hstore) |].
    intros c Hc. children_bound Hc. }
  pose proof (Nat.div_mod_eq (x - base - 3) 2) as Hdm.
  pose proof (Nat.mod_upper_bound (x - base - 3) 2 ltac:(lia)) as Hm.
  set (j := (x - base - 3) / 2) in *.
  destruct (decide ((x - base - 3) mod 2 = 0)) as [H0 | H1].
  - replace x with (base + 3 + 2 * j) in * by lia.
    left. eapply Hlin, (hb_linear _ _ _ _ _ _ Hblocks j). lia.
  - replace x with (base + 4 + 2 * j) in * by lia.
    right. eapply Hseq; [apply (hb_seq _ _ _ _ _ _ Hblocks j); lia |].
    intros c Hc. children_bound Hc.
Qed.

(** Of the objects at and above [base], only [base] itself is an
    activation. *)
Lemma mlp_store_activation_unique (x : addr) :
  base <= x -> is_activation h x = true -> x = base.
Proof.
  intros Hx Hact. unfold is_activation in Hact.
  destruct (h !! x) as [o |] eqn:Hlook; [| done].
  destruct (mlp_store_cases x o Hx Hlook)
    as [-> | [(i & n & w & b & ->) | (cs & -> & _)]]; done.
Qed.

End BuiltNetwork.

Lemma chain_hidden (n : nat) (act : activation_kind) (j : nat)
    (rest : list layer_desc) :
  chain n (concat (replicate j [Affine n n; Activation act]) ++ rest)
  = chain n rest.
Proof.
  induction j as [| j IH]; [done |].
  cbn [replicate concat app chain]. by rewrite decide_True.
Qed.

Lemma chain_mlp n_network n_class n_hidden_dimension k act :
  chain n_network (mlp_layers n_network n_class n_hidden_dimension k act)
  = Some n_class.
Proof.
  unfold mlp_layers. cbn [app chain]. rewrite decide_True by done.
  rewrite chain_hidden. cbn [chain]. by rewrite decide_True.
Qed.

Lemma activation_of_supported (activation : string) :
  activation = "tanh" \/ activation = "relu" ->
  exists act, activation_of activation = Some act.
Proof. intros [-> | ->]; by eexists. Qed.

Lemma activation_of_unsupported (activation : string) :
  activation <> "tanh" -> activation <> "relu" ->
  activation_of activation = None.
Proof.
  intros H1%String.eqb_neq H2%String.eqb_neq.
  unfold activation_of. by rewrite H1, H2.
Qed.

Lemma activation_of_Some_cases (activation : string) act :
  activation_of activation = Some act ->
  activation = "tanh" /\ act = KTanh \/ activation = "relu" /\ act = KReLU.
Proof.
  unfold activation_of.
  destruct (String.eqb activation "tanh") eqn:H1.
  { apply String.eqb_eq in H1. intros [= <-]. auto. }
  destruct (String.eqb activation "relu") eqn:H2; [| done].
  apply String.eqb_eq in H2. intros [= <-]. auto.
Qed.

Lemma activation_of_Some_inv (activation : string) act :
  activation_of activation = Some act ->
  activation = "tanh" \/ activation = "relu".
Proof.
  unfold activation_of.
  destruct (String.eqb activation "tanh") eqn:H1;
    [apply String.eqb_eq in H1; auto |].
  destruct (String.eqb activation "relu") eqn:H2;
    [apply String.eqb_eq in H2; auto | done].
Qed.

(** The builder keeps the store well-formed. *)
Lemma build_wf n_network n_class n_hidden_layers n_hidden_dimension
    activation (s s' : state) (root : addr) :
  heap_wf (heap s) ->
  get_multilayer_perceptron n_network n_class n_hidden_layers
    n_hidden_dimension activation s = Ret root s' ->
  heap_wf (heap s') /\ root < length (heap s').
Proof.
  intros Hwf Hrun.
  destruct (activation_of activation) as [act |] eqn:Hact.
  - destruct (build_run n_network n_class n_hidden_layers n_hidden_dimension
                activation act s Hact) as (s1 & Hrun1 & Hstore & ext & Hext).
    rewrite Hrun1 in Hrun. injection Hrun as <- <-. split.
    + intros a cs c Ha Hc.
      destruct (decide (a < length (heap s))) as [Hlt | Hge].
      * rewrite Hext, lookup_app_l in Ha by done. eauto.
      * destruct (mlp_store_cases _ _ _ _ _ _ _ Hstore a _ ltac:(lia) Ha)
          as [-> | [(i & n & w & b & [=]) | (cs' & [= <-] & Hcs)]].
        -- rewrite (hb_act _ _ _ _ _ _ (ms_blocks _ _ _ _ _ _ _ Hstore)) in Ha.
           by destruct act.
        -- apply Hcs in Hc. lia.
    + rewrite (ms_length _ _ _ _ _ _ _ Hstore). lia.
  - unfold get_multilayer_perceptron in Hrun.
    fold (select_activation activation) in Hrun.
    by rewrite (select_activation_unsupported _ Hact) in Hrun.
Qed.

(** ** Well-formed stores *)

Lemma wf_from_sound (h : list module_obj) (n : nat) :
  wf_from n h = true ->
  forall a cs c, h !! a = Some (Sequential cs) -> c ∈ cs -> c < n + a.
Proof.
  revert n. induction h as [| o h IH]; intros n Hwf a cs c Hl Hc; [done |].
  cbn [wf_from] in Hwf. apply andb_prop in Hwf as [Ho Hh].
  destruct a as [| a]; cbn in Hl.
  - injection Hl as ->. cbn [closed_obj] in Ho.
    rewrite forallb_forall in Ho.
    apply list_elem_of_In, Ho, Nat.ltb_lt in Hc. lia.
  - specialize (IH (S n) Hh a cs c Hl Hc). lia.
Qed.

Lemma heap_wf_check (h : list module_obj) : wf_from 0 h = true -> heap_wf h.
Proof. intros Hwf a cs c Hl Hc. apply (wf_from_sound h 0 Hwf a cs c Hl Hc). Qed.

Lemma dedup_elem (seen l : list addr) (x : addr) :
  x ∈ dedup seen l <-> x ∈ l /\ x ∉ seen.
Proof.
  revert seen. induction l as [| y l IH]; intros seen; cbn [dedup].
  - split; [by intros ?%not_elem_of_nil | by intros [?%not_elem_of_nil _]].
  - destruct (decide (y ∈ seen)) as [Hy | Hy].
    + rewrite IH, elem_of_cons. split; [tauto |].
      intros [[-> | Hx] Hn]; [done | tauto].
    + rewrite !elem_of_cons, IH, elem_of_cons. split.
      * intros [-> | [Hx Hn]]; [tauto |]. split; [tauto |]. tauto.
      * intros [[-> | Hx] Hn]; [tauto |].
        destruct (decide (x = y)) as [-> | Hne]; [tauto |]. right. tauto.
Qed.

Lemma children_of_wf (h : list module_obj) (m c : addr) (o : module_obj) :
  heap_wf h -> h !! m = Some o -> c ∈ children_of o -> c < m.
Proof.
  intros Hwf Hm Hc. destruct o as [| | | cs]; cbn [children_of] in Hc;
    try by apply not_elem_of_nil in Hc.
  apply dedup_elem in Hc as [Hc _]. eauto.
Qed.

(** ** One call of [init_weights] *)

Lemma init_weights_run (m : addr) (s : state) :
  is_Some (heap s !! m) -> init_weights m s = Ret tt (reinit m s).
Proof.
  intros [o Ho]. unfold init_weights, reinit, bind, deref. rewrite Ho.
  destruct o; reflexivity.
Qed.

Lemma same_shape_refl (o : module_obj) : same_shape o o.
Proof. destruct o; cbn; tauto. Qed.

Lemma same_shape_trans (o1 o2 o3 : module_obj) :
  same_shape o1 o2 -> same_shape o2 o3 -> same_shape o1 o3.
Proof.
  destruct o1, o2, o3; cbn; try tauto.
  - intros (-> & -> & -> & -> & Hw & Hb) (-> & -> & -> & -> & Hw' & Hb').
    repeat split; auto.
  - congruence.
Qed.

Lemma shape_preserved_refl (h : list module_obj) : shape_preserved h h.
Proof. split; [done |]. eauto using same_shape_refl. Qed.

Lemma shape_preserved_trans (h1 h2 h3 : list module_obj) :
  shape_preserved h1 h2 -> shape_preserved h2 h3 -> shape_preserved h1 h3.
Proof.
  intros [Hl1 H1] [Hl2 H2]. split; [congruence |].
  intros a o Ho. destruct (H1 a o Ho) as (o2 & Ho2 & Hs2).
  destruct (H2 a o2 Ho2) as (o3 & Ho3 & Hs3).
  eauto using same_shape_trans.
Qed.

Lemma shape_preserved_children (h h' : list module_obj) (a : addr) :
  shape_preserved h h' ->
  children_of <$> h' !! a = children_of <$> h !! a.
Proof.
  intros [Hlen Hsh]. destruct (h !! a) as [o |] eqn:Ho.
  - destruct (Hsh a o Ho) as (o' & -> & Hs). cbn. f_equal.
    destruct o, o'; cbn in Hs; try done. by subst.
  - apply lookup_ge_None in Ho. rewrite Hlen in Ho.
    apply lookup_ge_None in Ho. by rewrite Ho.
Qed.

Lemma shape_preserved_is_Linear (h h' : list module_obj) (a : addr) :
  shape_preserved h h' -> is_Linear h' a = is_Linear h a.
Proof.
  intros [Hlen Hsh]. unfold is_Linear. destruct (h !! a) as [o |] eqn:Ho.
  - destruct (Hsh a o Ho) as (o' & -> & Hs).
    destruct o, o'; cbn in Hs; done.
  - apply lookup_ge_None in Ho. rewrite Hlen in Ho.
    apply lookup_ge_None in Ho. by rewrite Ho.
Qed.

Lemma shape_preserved_wf (h h' : list module_obj) :
  shape_preserved h h' -> heap_wf h -> heap_wf h'.
Proof.
  intros Hsh Hwf a cs c Ha Hc.
  pose proof (shape_preserved_children h h' a Hsh) as Hch.
  rewrite Ha in Hch. cbn in Hch.
  destruct (h !! a) as [o |] eqn:Ho; [| done].
  destruct Hsh as [_ Hsh]. destruct (Hsh a o Ho) as (o' & Ho' & Hs).
  rewrite Ha in Ho'. injection Ho' as <-.
  destruct o; cbn in Hs; try done. subst. eauto.
Qed.

Lemma sized_redraw (t : tensor) (start : nat) : sized (redraw t start).
Proof. unfold sized, redraw. cbn. by rewrite length_map, length_seq. Qed.

Lemma reinit_Linear (m : addr) (s : state) i n w b :
  heap s !! m = Some (Linear i n w b) ->
  heap (reinit m s) !! m
  = Some (Linear i n (redraw w (rng s)) (redraw b (rng s + numel (shape w))))
  /\ rng (reinit m s) = rng s + numel (shape w) + numel (shape b).
Proof.
  intros Hm. unfold reinit. rewrite Hm. cbn [heap rng]. split; [| done].
  apply list_lookup_insert_eq. by eapply lookup_lt_Some.
Qed.

Lemma reinit_frame (m a : addr) (s : state) :
  a <> m -> heap (reinit m s) !! a = heap s !! a.
Proof.
  intros Hne. unfold reinit.
  destruct (heap s !! m) as [[] |]; try done.
  cbn [heap]. by apply list_lookup_insert_ne.
Qed.

Lemma reinit_rng (m : addr) (s : state) : rng s <= rng (reinit m s).
Proof.
  unfold reinit. destruct (heap s !! m) as [[] |]; cbn [rng]; lia.
Qed.

Lemma reinit_shape (m : addr) (s : state) :
  shape_preserved (heap s) (heap (reinit m s)).
Proof.
  destruct (heap s !! m) as [o |] eqn:Hm.
  - destruct o as [i n w b | | | cs];
      try (unfold reinit; rewrite Hm; apply shape_preserved_refl).
    destruct (reinit_Linear m s i n w b Hm) as [Hnew _]. split.
    + unfold reinit. rewrite Hm. cbn [heap]. by rewrite length_insert.
    + intros a o Ha. destruct (decide (a = m)) as [-> | Hne].
      * rewrite Hm in Ha. injection Ha as <-. eexists. split; [exact Hnew |].
        cbn. repeat split; auto using sized_redraw.
      * rewrite reinit_frame by done. eauto using same_shape_refl.
  - unfold reinit. rewrite Hm. apply shape_preserved_refl.
Qed.

(** ** A sequence of calls *)

Lemma reinit_all_app (l1 l2 : list addr) (s : state) :
  reinit_all (l1 ++ l2) s = reinit_all l2 (reinit_all l1 s).
Proof. apply foldl_app. Qed.

Lemma reinit_all_shape (l : list addr) (s : state) :
  shape_preserved (heap s) (heap (reinit_all l s)).
Proof.
  revert s. induction l as [| a l IH]; intros s.
  - apply shape_preserved_refl.
  - eapply shape_preserved_trans; [apply (reinit_shape a) | apply IH].
Qed.

Lemma reinit_all_frame (l : list addr) (s : state) (a : addr) :
  a ∉ l -> heap (reinit_all l s) !! a = heap s !! a.
Proof.
  revert s. induction l as [| x l IH]; intros s Ha; [done |].
  apply not_elem_of_cons in Ha as [Hne Ha].
  cbn [reinit_all foldl]. fold (reinit_all l (reinit x s)).
  by rewrite IH, reinit_frame.
Qed.

Lemma reinit_all_rng (l : list addr) (s : state) :
  rng s <= rng (reinit_all l s).
Proof.
  revert s. induction l as [| x l IH]; intros s; [done |].
  cbn [reinit_all foldl]. fold (reinit_all l (reinit x s)).
  pose proof (reinit_rng x s). pose proof (IH (reinit x s)). lia.
Qed.

(** ** Fresh draws *)

Lemma redrawn_weaken (lo hi lo' hi' : nat) (o : module_obj) :
  lo' <= lo -> hi <= hi' -> redrawn lo hi o -> redrawn lo' hi' o.
Proof.
  intros Hlo Hhi. destruct o; cbn; try done.
  intros (Hw & Hb & Hall). repeat split; try done.
  eapply Forall_impl; [exact Hall |]. intros e [Hlaw Hpos]. split; [done | lia].
Qed.

Lemma entries_redraw i n (w b : tensor) (r : nat) :
  entries (Linear i n (redraw w r) (redraw b (r + numel (shape w))))
  = Draw (Normal zero half) <$> seq r (numel (shape w) + numel (shape b)).
Proof. cbn [entries redraw data]. by rewrite seq_app, fmap_app. Qed.

Lemma entries_redraw_lookup i n (w b : tensor) (r j : nat) (e : entry) :
  entries (Linear i n (redraw w r) (redraw b (r + numel (shape w)))) !! j
  = Some e ->
  e = Draw (Normal zero half) (r + j)
  /\ j < numel (shape w) + numel (shape b).
Proof.
  rewrite entries_redraw, list_lookup_fmap.
  destruct (seq r _ !! j) as [p |] eqn:Hp; [| done].
  apply lookup_seq in Hp as [-> Hj]. by intros [= <-].
Qed.

Lemma redrawn_redraw i n (w b : tensor) (r : nat) :
  redrawn r (r + numel (shape w) + numel (shape b))
    (Linear i n (redraw w r) (redraw b (r + numel (shape w)))).
Proof.
  split; [apply sized_redraw |]. split; [apply sized_redraw |].
  apply Forall_lookup. intros j e He.
  change (data (redraw w r) ++ data (redraw b (r + numel (shape w))))
    with (entries (Linear i n (redraw w r) (redraw b (r + numel (shape w)))))
    in He.
  apply entries_redraw_lookup in He as [-> Hj]. split; [done |]. cbn [pos]. lia.
Qed.

Lemma is_Linear_lookup (h : list module_obj) (a : addr) :
  is_Linear h a = true -> exists i n w b, h !! a = Some (Linear i n w b).
Proof.
  unfold is_Linear. destruct (h !! a) as [[i n w b | | |] |]; try done.
  eauto.
Qed.

Lemma entries_is_Linear (h : list module_obj) (a j : addr) o e :
  h !! a = Some o -> entries o !! j = Some e -> is_Linear h a = true.
Proof. unfold is_Linear. intros ->. by destruct o. Qed.

(** After a sequence of calls, every [Linear] that was called on holds
    draws of that sequence only. *)
Lemma reinit_all_fresh (l : list addr) (s : state) (a : addr) :
  a ∈ l -> is_Linear (heap s) a = true ->
  exists o', heap (reinit_all l s) !! a = Some o'
             /\ redrawn (rng s) (rng (reinit_all l s)) o'.
Proof.
  revert s. induction l as [| x l IH]; intros s Ha Hlin.
  - by apply not_elem_of_nil in Ha.
  - cbn [reinit_all foldl]. fold (reinit_all l (reinit x s)).
    destruct (decide (a ∈ l)) as [Hin | Hnin].
    + destruct (IH (reinit x s) Hin) as (o' & Ho' & Hr).
      { by rewrite (shape_preserved_is_Linear _ _ _ (reinit_shape x s)). }
      exists o'. split; [done |].
      eapply redrawn_weaken; [apply reinit_rng | reflexivity | exact Hr].
    + apply elem_of_cons in Ha as [-> | Ha]; [| done].
      apply is_Linear_lookup in Hlin as (i & n & w & b & Hx).
      destruct (reinit_Linear x s i n w b Hx) as [Hnew Hrng].
      rewrite reinit_all_frame by done. eexists. split; [exact Hnew |].
      eapply redrawn_weaken; [reflexivity | | apply redrawn_redraw].
      rewrite <- Hrng. apply reinit_all_rng.
Qed.

Lemma redrawn_entry_pos (lo hi : nat) o (j : nat) (e : entry) :
  redrawn lo hi o -> entries o !! j = Some e -> fresh_normal lo hi e.
Proof.
  destruct o; cbn [redrawn entries]; try done.
  intros (_ & _ & Hall) He. by eapply Forall_lookup_1.
Qed.

Lemma reinit_entry_pos (x : addr) (s : state) o (j : nat) (e : entry) :
  heap (reinit x s) !! x = Some o -> entries o !! j = Some e ->
  pos e = rng s + j /\ pos e < rng (reinit x s).
Proof.
  intros Ho He.
  assert (Hlin : is_Linear (heap s) x = true).
  { rewrite <- (shape_preserved_is_Linear _ _ _ (reinit_shape x s)).
    by eapply entries_is_Linear. }
  apply is_Linear_lookup in Hlin as (i & n & w & b & Hx).
  destruct (reinit_Linear x s i n w b Hx) as [Hnew Hrng].
  rewrite Hnew in Ho. injection Ho as <-.
  apply entries_redraw_lookup in He as [-> Hj]. cbn [pos]. lia.
Qed.

Lemma reinit_all_distinct (l : list addr) (s : state) :
  distinct_draws (heap (reinit_all l s)) l.
Proof.
  revert s. induction l as [| x l IH]; intros s.
  - intros a1 a2 o1 o2 j1 j2 e1 e2 Ha1. by apply not_elem_of_nil in Ha1.
  - cbn [reinit_all foldl]. fold (reinit_all l (reinit x s)).
    set (s1 := reinit x s). set (s' := reinit_all l s1).
    assert (Hold : forall a o j e, a ∈ l -> heap s' !! a = Some o ->
                     entries o !! j = Some e -> rng s1 <= pos e).
    { intros a o j e Ha Ho He.
      destruct (reinit_all_fresh l s1 a Ha) as (o' & Ho' & Hr).
      - rewrite <- (shape_preserved_is_Linear _ _ _ (reinit_all_shape l s1)).
        by eapply entries_is_Linear.
      - fold s' in Ho'. rewrite Ho in Ho'. injection Ho' as <-.
        by destruct (redrawn_entry_pos _ _ _ _ _ Hr He) as [_ [? _]]. }
    assert (Hnew : forall o j e, x ∉ l -> heap s' !! x = Some o ->
                     entries o !! j = Some e ->
                     pos e = rng s + j /\ pos e < rng s1).
    { intros o j e Hx Ho He. unfold s' in Ho.
      rewrite reinit_all_frame in Ho by done.
      by apply (reinit_entry_pos x s o j e). }
    intros a1 a2 o1 o2 j1 j2 e1 e2 Ha1 Ha2 Ho1 Ho2 He1 He2 Hpos.
    destruct (decide (a1 ∈ l)) as [Hin1 | Hnin1];
      destruct (decide (a2 ∈ l)) as [Hin2 | Hnin2].
    + by apply (IH s1 a1 a2 o1 o2 j1 j2 e1 e2).
    + apply elem_of_cons in Ha2 as [-> | ?]; [| done].
      pose proof (Hold _ _ _ _ Hin1 Ho1 He1).
      destruct (Hnew _ _ _ Hnin2 Ho2 He2). lia.
    + apply elem_of_cons in Ha1 as [-> | ?]; [| done].
      pose proof (Hold _ _ _ _ Hin2 Ho2 He2).
      destruct (Hnew _ _ _ Hnin1 Ho1 He1). lia.
    + apply elem_of_cons in Ha1 as [-> | ?]; [| done].
      apply elem_of_cons in Ha2 as [-> | ?]; [| done].
      destruct (Hnew _ _ _ Hnin1 Ho1 He1), (Hnew _ _ _ Hnin2 Ho2 He2).
      split; [done | lia].
Qed.

(** ** The traversal *)

Lemma visits_fuel_ext (f : nat) (h h' : list module_obj) (m : addr) :
  (forall a, children_of <$> h' !! a = children_of <$> h !! a) ->
  visits_fuel f h' m = visits_fuel f h m.
Proof.
  intros Hch. revert m. induction f as [| f IH]; intros m; [done |].
  cbn [visits_fuel]. specialize (Hch m).
  destruct (h !! m) as [o |], (h' !! m) as [o' |]; cbn in Hch; try done.
  injection Hch as ->. f_equal. apply flat_map_ext. intros c. apply IH.
Qed.

Lemma children_of_elem (o : module_obj) (c : addr) :
  c ∈ children_of o -> exists cs, o = Sequential cs /\ c ∈ cs.
Proof.
  destruct o as [| | | cs]; cbn [children_of];
    try by intros ?%not_elem_of_nil.
  intros [Hc _]%dedup_elem. eauto.
Qed.

Lemma visits_fuel_descendant (f : nat) (h : list module_obj) (m a : addr) :
  a ∈ visits_fuel f h m -> exists d, descendant h d m a.
Proof.
  revert m. induction f as [| f IH]; intros m Ha; cbn [visits_fuel] in Ha.
  - by apply not_elem_of_nil in Ha.
  - destruct (h !! m) as [o |] eqn:Hm; [| by apply not_elem_of_nil in Ha].
    apply elem_of_app in Ha as [Ha | ->%list_elem_of_singleton].
    + apply list_elem_of_In, in_flat_map in Ha as (c & Hc & Hac).
      apply list_elem_of_In in Hc, Hac.
      apply children_of_elem in Hc as (cs & -> & Hc).
      destruct (IH c Hac) as (d & Hd). exists (S d). by econstructor.
    + exists 0. constructor. by eexists.
Qed.

(** Whatever lies below [m], fewer than [fuel] containers deep, is called
    on. *)
Lemma descendant_visits (h : list module_obj) (d : nat) (m a : addr) :
  descendant h d m a -> forall fuel, d < fuel -> a ∈ visits_fuel fuel h m.
Proof.
  induction 1 as [m [o Ho] | d m cs c a Hm Hc Hdesc IH]; intros fuel Hf;
    (destruct fuel as [| fuel]; [lia |]); cbn [visits_fuel].
  - rewrite Ho. apply elem_of_app. right. left.
  - rewrite Hm. apply elem_of_app. left.
    apply list_elem_of_In, in_flat_map. exists c. split.
    + apply list_elem_of_In. cbn [children_of]. apply dedup_elem.
      split; [done | apply not_elem_of_nil].
    + apply list_elem_of_In, IH. lia.
Qed.

Lemma descendant_valid (h : list module_obj) (d : nat) (m a : addr) :
  descendant h d m a -> is_Some (h !! a).
Proof. induction 1; auto. Qed.

(** In a well-formed store every step down is a step to an older object. *)
Lemma descendant_depth_le (h : list module_obj) (d : nat) (m a : addr) :
  heap_wf h -> descendant h d m a -> a + d <= m.
Proof.
  intros Hwf. induction 1 as [m _ | d m cs c a Hm Hc _ IH]; [lia |].
  specialize (Hwf m cs c Hm Hc). lia.
Qed.

Lemma descendant_le (h : list module_obj) (d : nat) (m a : addr) :
  heap_wf h -> descendant h d m a -> a <= m.
Proof. intros Hwf Hd. pose proof (descendant_depth_le _ _ _ _ Hwf Hd). lia. Qed.

Lemma nested_within_wf (h : list module_obj) (limit : nat) (m : addr) :
  heap_wf h -> m < limit -> nested_within h limit m.
Proof.
  intros Hwf Hm d a Hd. pose proof (descendant_depth_le _ _ _ _ Hwf Hd). lia.
Qed.

Lemma nested_within_child (h : list module_obj) (f : nat) (m c : addr) cs :
  nested_within h (S f) m -> h !! m = Some (Sequential cs) -> c ∈ cs ->
  nested_within h f c.
Proof.
  intros Hn Hm Hc d a Hd.
  specialize (Hn (S d) a (desc_child _ _ _ _ _ _ Hm Hc Hd)). lia.
Qed.

Lemma descendant_shape_preserved (h h' : list module_obj) (d : nat)
    (m a : addr) :
  shape_preserved h h' -> descendant h d m a <-> descendant h' d m a.
Proof.
  intros [Hlen Hsh].
  assert (Hfwd : forall x o, h !! x = Some o ->
                   exists o', h' !! x = Some o' /\ same_shape o o') by done.
  assert (Hbwd : forall x o', h' !! x = Some o' ->
                   exists o, h !! x = Some o /\ same_shape o o').
  { intros x o' Hx'. pose proof (lookup_lt_Some _ _ _ Hx') as Hlt.
    rewrite <- Hlen in Hlt.
    destruct (lookup_lt_is_Some_2 h x Hlt) as [o Ho].
    destruct (Hfwd x o Ho) as (o'' & Ho'' & Hs).
    rewrite Hx' in Ho''. injection Ho'' as <-. eauto. }
  split.
  - induction 1 as [m [o Ho] | d m cs c a Hm Hc _ IH].
    + constructor. destruct (Hfwd m o Ho) as (o' & -> & _). by eexists.
    + destruct (Hfwd m _ Hm) as (o' & Ho' & Hs).
      destruct o'; cbn in Hs; try done. subst. by econstructor.
  - induction 1 as [m [o' Ho'] | d m cs c a Hm Hc _ IH].
    + constructor. destruct (Hbwd m o' Ho') as (o & -> & _). by eexists.
    + destruct (Hbwd m _ Hm) as (o & Ho & Hs).
      destruct o; cbn in Hs; try done. subst. by econstructor.
Qed.

Lemma nested_within_shape_preserved (h h' : list module_obj) (limit : nat)
    (m : addr) :
  shape_preserved h h' -> nested_within h limit m -> nested_within h' limit m.
Proof.
  intros Hsh Hn d a Hd. apply (Hn d a).
  by apply (descendant_shape_preserved h h').
Qed.

Section ApplyInitWeights.

Variable h0 : list module_obj.
Hypothesis Hwf : heap_wf h0.

(** On a store with the containers of [h0], [m.apply(init_weights)] returns
    [m] after the calls listed by [visits_fuel], when the nesting below [m]
    is within the budget. *)
Lemma apply_init_weights_fuel (fuel : nat) (m : addr) (s : state) :
  shape_preserved h0 (heap s) -> m < length h0 -> nested_within h0 fuel m ->
  apply_fuel fuel init_weights m s
  = Ret m (reinit_all (visits_fuel fuel h0 m) s).
Proof.
  revert m s. induction fuel as [| fuel IH]; intros m s Hsh Hm Hf.
  { destruct (lookup_lt_is_Some_2 h0 m Hm) as [o0 Ho0].
    assert (Hself : descendant h0 0 m m) by (constructor; by eexists).
    specialize (Hf 0 m Hself). lia. }
  destruct (lookup_lt_is_Some_2 h0 m Hm) as [o0 Ho0].
  destruct (proj2 Hsh m o0 Ho0) as (o & Ho & Hsame).
  assert (Hch : children_of o = children_of o0).
  { pose proof (shape_preserved_children _ _ m Hsh) as Hc.
    rewrite Ho, Ho0 in Hc. by injection Hc. }
  assert (Hloop : forall cs s1,
             (forall c, c ∈ cs -> c < m /\ nested_within h0 fuel c) ->
             shape_preserved h0 (heap s1) ->
             for_each cs
               (fun c (_ : unit) => _ <- apply_fuel fuel init_weights c ;; ret tt)
               tt s1
             = Ret tt (reinit_all (flat_map (visits_fuel fuel h0) cs) s1)).
  { induction cs as [| c cs IHcs]; intros s1 Hcs Hsh1; [done |].
    destruct (Hcs c ltac:(left)) as [Hlt Hnest].
    cbn [for_each flat_map]. unfold bind at 1. unfold bind at 1.
    rewrite IH; [| done | lia | done].
    unfold ret at 1. rewrite IHcs.
    - by rewrite reinit_all_app.
    - intros c' Hc'. apply Hcs. by right.
    - eapply shape_preserved_trans; [exact Hsh1 | apply reinit_all_shape]. }
  cbn [apply_fuel visits_fuel]. rewrite Ho0.
  unfold bind at 1. unfold deref. rewrite Ho, Hch.
  unfold bind at 1. rewrite Hloop; [| | done].
  - unfold bind at 1. rewrite init_weights_run.
    + unfold ret. by rewrite reinit_all_app.
    + pose proof (shape_preserved_trans _ _ _ Hsh
                    (reinit_all_shape (flat_map (visits_fuel fuel h0) (children_of o0)) s))
        as [_ Hsh'].
      destruct (Hsh' m o0 Ho0) as (o' & -> & _). by eexists.
  - intros c Hc. split; [by eapply children_of_wf |].
    destruct (children_of_elem _ _ Hc) as (cs0 & -> & Hc0).
    by eapply nested_within_child.
Qed.

(** Whatever the budget, [m.apply(init_weights)] returns or raises
    [RecursionError], and has until then only called [init_weights] on
    objects below [m]. *)
Lemma apply_init_weights_any (fuel : nat) (m : addr) (s : state) :
  shape_preserved h0 (heap s) -> m < length h0 ->
  exists l,
    (forall a, a ∈ l -> exists d, descendant h0 d m a)
    /\ ends_in (apply_fuel fuel init_weights m s) m (reinit_all l s).
Proof.
  revert m s. induction fuel as [| fuel IH]; intros m s Hsh Hm.
  { exists []. split; [by intros a ?%not_elem_of_nil | by right]. }
  destruct (lookup_lt_is_Some_2 h0 m Hm) as [o0 Ho0].
  destruct (proj2 Hsh m o0 Ho0) as (o & Ho & Hsame).
  assert (Hch : children_of o = children_of o0).
  { pose proof (shape_preserved_children _ _ m Hsh) as Hc.
    rewrite Ho, Ho0 in Hc. by injection Hc. }
  assert (Hloop : forall cs s1,
             (forall c, c ∈ cs -> c ∈ children_of o0) ->
             shape_preserved h0 (heap s1) ->
             exists l,
               (forall a, a ∈ l -> exists d, descendant h0 d m a)
               /\ ends_in
                    (for_each cs
                       (fun c (_ : unit) =>
                          _ <- apply_fuel fuel init_weights c ;; ret tt)
                       tt s1)
                    tt (reinit_all l s1)).
  { induction cs as [| c cs IHcs]; intros s1 Hcs Hsh1.
    { exists []. split; [by intros a ?%not_elem_of_nil | by left]. }
    pose proof (Hcs c ltac:(left)) as Hc.
    pose proof (children_of_wf _ _ _ _ Hwf Ho0 Hc) as Hlt.
    destruct (children_of_elem _ _ Hc) as (cs0 & -> & Hc0).
    destruct (IH c s1 Hsh1 ltac:(lia)) as (l1 & Hl1 & [Hret | Hraise]).
    - destruct (IHcs (reinit_all l1 s1)) as (l2 & Hl2 & Hend).
      { intros c' Hc'. apply Hcs. by right. }
      { eapply shape_preserved_trans; [exact Hsh1 | apply reinit_all_shape]. }
      exists (l1 ++ l2). split.
      + intros a [Ha | Ha]%elem_of_app; [| by apply Hl2].
        destruct (Hl1 a Ha) as (d & Hd). exists (S d). by econstructor.
      + cbn [for_each]. unfold bind at 1. unfold bind at 1. rewrite Hret.
        unfold ret at 1. by rewrite reinit_all_app.
    - exists l1. split.
      + intros a Ha. destruct (Hl1 a Ha) as (d & Hd).
        exists (S d). by econstructor.
      + right. cbn [for_each]. unfold bind at 1. unfold bind at 1.
        by rewrite Hraise. }
  destruct (Hloop (children_of o0) s ltac:(done) Hsh)
    as (l & Hl & [Hret | Hraise]).
  - exists (l ++ [m]). split.
    + intros a [Ha | ->%list_elem_of_singleton]%elem_of_app; [by apply Hl |].
      exists 0. constructor. by eexists.
    + left. cbn [apply_fuel]. unfold bind at 1. unfold deref. rewrite Ho, Hch.
      unfold bind at 1. rewrite Hret. unfold bind at 1.
      rewrite init_weights_run.
      * unfold ret. by rewrite reinit_all_app.
      * pose proof (shape_preserved_trans _ _ _ Hsh (reinit_all_shape l s))
          as [_ Hsh'].
        destruct (Hsh' m o0 Ho0) as (o' & -> & _). by eexists.
  - exists l. split; [done |]. right.
    cbn [apply_fuel]. unfold bind at 1. unfold deref. rewrite Ho, Hch.
    unfold bind at 1. by rewrite Hraise.
Qed.

End ApplyInitWeights.

(** [net.apply(init_weights)] on a well-formed store, nested within the
    budget. *)
Lemma apply_init_weights_run (limit : nat) (s : state) (root : addr) :
  heap_wf (heap s) -> root < length (heap s) ->
  nested_within (heap s) limit root ->
  Module_apply limit init_weights root s
  = Ret root (reinit_all (visits_fuel limit (heap s) root) s).
Proof.
  intros Hwf Hroot Hfit. unfold Module_apply.
  apply apply_init_weights_fuel; [done | apply shape_preserved_refl | done..].
Qed.

(** [net.apply(init_weights)] on a well-formed store, whatever the
    budget. *)
Lemma apply_init_weights_ends (limit : nat) (s : state) (root : addr) :
  heap_wf (heap s) -> root < length (heap s) ->
  exists l,
    (forall a, a ∈ l -> exists d, descendant (heap s) d root a)
    /\ ends_in (Module_apply limit init_weights root s) root (reinit_all l s).
Proof.
  intros Hwf Hroot. unfold Module_apply.
  apply apply_init_weights_any; [done | apply shape_preserved_refl | done].
Qed.

Lemma ends_in_returns {A} (c : outcome A) (a a' : A) (s' s'' : state) :
  ends_in c a s' -> c = Ret a' s'' -> c = Ret a s'.
Proof. intros [-> | ->]; [done | discriminate]. Qed.

(** The passes of [for run in range(nruns): net.apply(init_weights)],
    whatever the budget: the loop returns or stops at the first
    [RecursionError], having only called [init_weights] below the root. *)
Lemma repeat_apply_ends (limit nruns : nat) (s : state) (root : addr) :
  heap_wf (heap s) -> root < length (heap s) ->
  exists l,
    (forall a, a ∈ l -> exists d, descendant (heap s) d root a)
    /\ ends_in (repeat_apply limit nruns init_weights root s) tt
         (reinit_all l s).
Proof.
  revert s. induction nruns as [| n IH]; intros s Hwf Hroot.
  { exists []. split; [by intros a ?%not_elem_of_nil | by left]. }
  destruct (apply_init_weights_ends limit s root Hwf Hroot)
    as (l1 & Hl1 & [Hret | Hraise]).
  - pose proof (reinit_all_shape l1 s) as Hsh1.
    destruct (IH (reinit_all l1 s)) as (l2 & Hl2 & Hend).
    { by eapply shape_preserved_wf. }
    { by rewrite <- (proj1 Hsh1). }
    exists (l1 ++ l2). split.
    + intros a [Ha | Ha]%elem_of_app; [by apply Hl1 |].
      destruct (Hl2 a Ha) as (d & Hd). exists d.
      by apply (descendant_shape_preserved _ _ _ _ _ Hsh1).
    + cbn [repeat_apply]. unfold bind at 1. rewrite Hret.
      by rewrite reinit_all_app.
  - exists l1. split; [done |]. right.
    cbn [repeat_apply]. unfold bind at 1. by rewrite Hraise.
Qed.

Lemma repeat_apply_run (limit nruns : nat) (s : state) (root : addr) :
  heap_wf (heap s) -> root < length (heap s) ->
  nested_within (heap s) limit root ->
  exists s', repeat_apply limit nruns init_weights root s = Ret tt s'
             /\ shape_preserved (heap s) (heap s')
             /\ rng s <= rng s'.
Proof.
  revert s. induction nruns as [| n IH]; intros s Hwf Hroot Hfit.
  - exists s. split; [done |]. split; [apply shape_preserved_refl | done].
  - cbn [repeat_apply]. unfold bind at 1.
    rewrite apply_init_weights_run by done.
    set (s1 := reinit_all (visits_fuel limit (heap s) root) s).
    pose proof (reinit_all_shape (visits_fuel limit (heap s) root) s) as Hsh1.
    pose proof (reinit_all_rng (visits_fuel limit (heap s) root) s) as Hrng1.
    fold s1 in Hsh1, Hrng1.
    destruct (IH s1) as (s' & Hrun & Hsh & Hrng).
    + by eapply shape_preserved_wf.
    + by rewrite <- (proj1 Hsh1).
    + by eapply nested_within_shape_preserved.
    + exists s'. split; [done |]. split; [| lia].
      by eapply shape_preserved_trans.
Qed.

(** ** Built networks under the initialiser *)

Lemma layers_fuel_descendant (f : nat) (h : list module_obj) (m a : addr) :
  a ∈ layers_fuel f h m -> exists d, descendant h d m a.
Proof.
  revert m. induction f as [| f IH]; intros m Ha; cbn [layers_fuel] in Ha.
  - by apply not_elem_of_nil in Ha.
  - destruct (h !! m) as [o |] eqn:Hm; [| by apply not_elem_of_nil in Ha].
    assert (Hself : a ∈ [m] -> exists d, descendant h d m a).
    { intros ->%list_elem_of_singleton. exists 0. constructor. by eexists. }
    destruct o as [i n w b | | | cs]; try by apply Hself.
    apply list_elem_of_In, in_flat_map in Ha as (c & Hc & Hac).
    apply list_elem_of_In in Hc, Hac.
    destruct (IH c Hac) as (d & Hd). exists (S d). by econstructor.
Qed.

Lemma descendant_leaf (h : list module_obj) (d : nat) (m a : addr) :
  (forall cs, h !! m <> Some (Sequential cs)) ->
  descendant h d m a -> d = 0.
Proof. intros Hleaf Hd. inversion Hd; subst; [done |]. by eapply Hleaf in H. Qed.

Section BuiltDepth.

Variables (n_network n_class n_hidden_dimension : nat) (act : activation_kind).
Variables (h : list module_obj) (base k : nat).
Hypothesis Hstore : mlp_store n_network n_class n_hidden_dimension act h base k.

Lemma linear_at_leaf (x : addr) (i n d : nat) (a : addr) :
  linear_at h x i n -> descendant h d x a -> d = 0.
Proof.
  intros (w & b & Hx & _). apply descendant_leaf. intros cs. by rewrite Hx.
Qed.

Lemma activation_leaf (d : nat) (a : addr) : descendant h d base a -> d = 0.
Proof.
  apply descendant_leaf. intros cs.
  rewrite (hb_act _ _ _ _ _ _ (ms_blocks _ _ _ _ _ _ _ Hstore)).
  by destruct act.
Qed.

(** The [j]-th container of the stack has nothing more than [j + 1] levels
    below it. *)
Lemma stack_depth (j d : nat) (a : addr) :
  j <= k -> descendant h d (base + 2 + 2 * j) a -> d <= j + 1.
Proof.
  pose proof (ms_blocks _ _ _ _ _ _ _ Hstore) as Hblocks.
  revert d a. induction j as [| j IH]; intros d a Hj Hd.
  - replace (base + 2 + 2 * 0) with (base + 2) in Hd by lia.
    inversion Hd as [| d' m cs c a' Hm Hc Hd']; subst; [lia |].
    rewrite (hb_seq0 _ _ _ _ _ _ Hblocks) in Hm. injection Hm as <-.
    apply elem_of_cons in Hc as [-> | Hc].
    + pose proof (linear_at_leaf _ _ _ _ _ (hb_first _ _ _ _ _ _ Hblocks) Hd').
      lia.
    + apply list_elem_of_singleton in Hc as ->.
      pose proof (activation_leaf _ _ Hd'). lia.
  - replace (base + 2 + 2 * S j) with (base + 4 + 2 * j) in Hd by lia.
    inversion Hd as [| d' m cs c a' Hm Hc Hd']; subst; [lia |].
    rewrite (hb_seq _ _ _ _ _ _ Hblocks j) in Hm by lia. injection Hm as <-.
    apply elem_of_cons in Hc as [-> | Hc].
    { pose proof (IH d' a ltac:(lia) Hd'). lia. }
    apply elem_of_cons in Hc as [-> | Hc].
    + pose proof (linear_at_leaf _ _ _ _ _
                    (hb_linear _ _ _ _ _ _ Hblocks j ltac:(lia)) Hd').
      lia.
    + apply list_elem_of_singleton in Hc as ->.
      pose proof (activation_leaf _ _ Hd'). lia.
Qed.

(** A built network is nested [k + 2] deep: a budget of [k + 3] walks
    it. *)
Lemma mlp_nested_within (limit : nat) :
  k + 3 <= limit -> nested_within h limit (root_of base k).
Proof.
  intros Hlimit d a Hd. unfold root_of in Hd.
  inversion Hd as [| d' m cs c a' Hm Hc Hd']; subst; [lia |].
  rewrite (ms_root _ _ _ _ _ _ _ Hstore) in Hm. injection Hm as <-.
  apply elem_of_cons in Hc as [-> | Hc].
  - pose proof (stack_depth k d' a ltac:(lia) Hd'). lia.
  - apply list_elem_of_singleton in Hc as ->.
    pose proof (linear_at_leaf _ _ _ _ _ (ms_last _ _ _ _ _ _ _ Hstore) Hd').
    lia.
Qed.

End BuiltDepth.

Local Ltac not_listed :=
  let H := fresh in
  intros H; repeat (apply elem_of_cons in H as [H | H]; [lia |]);
  by apply not_elem_of_nil in H.

Local Ltac distinct_addrs :=
  repeat (apply NoDup_cons; split; [not_listed |]); apply NoDup_nil_2.

Section BuiltTooDeep.

Variables (n_network n_class n_hidden_dimension : nat) (act : activation_kind).
Variables (s : state) (base k : nat).
Hypothesis Hstore :
  mlp_store n_network n_class n_hidden_dimension act (heap s) base k.

(** With a budget too small for the stack below it, [apply] on the [j]-th
    container raises on the way down, before any call of [fn]. *)
Lemma apply_fuel_stack_raises (fn : addr -> M unit) (j f : nat) :
  j <= k -> f < j + 2 ->
  apply_fuel f fn (base + 2 + 2 * j) s = Raise RecursionError s.
Proof.
  pose proof (ms_blocks _ _ _ _ _ _ _ Hstore) as Hblocks.
  revert f. induction j as [| j IH]; intros f Hj Hf.
  - destruct f as [| f]; [done |].
    replace (base + 2 + 2 * 0) with (base + 2) by lia.
    cbn [apply_fuel]. unfold bind at 1. unfold deref.
    rewrite (hb_seq0 _ _ _ _ _ _ Hblocks). cbn [children_of].
    rewrite dedup_NoDup; [| distinct_addrs | intros x _; apply not_elem_of_nil].
    cbn [for_each]. unfold bind at 1. unfold bind at 1. unfold bind at 1.
    by replace f with 0 by lia.
  - destruct f as [| f]; [done |].
    replace (base + 2 + 2 * S j) with (base + 4 + 2 * j) by lia.
    cbn [apply_fuel]. unfold bind at 1. unfold deref.
    rewrite (hb_seq _ _ _ _ _ _ Hblocks j) by lia. cbn [children_of].
    rewrite dedup_NoDup; [| distinct_addrs | intros x _; apply not_elem_of_nil].
    cbn [for_each]. unfold bind at 1. unfold bind at 1. unfold bind at 1.
    by rewrite IH by lia.
Qed.

(** A budget below [k + 3] does not walk a built network: the call raises
    [RecursionError] and nothing has been called on. *)
Lemma apply_root_raises (fn : addr -> M unit) (limit : nat) :
  limit < k + 3 ->
  Module_apply limit fn (root_of base k) s = Raise RecursionError s.
Proof.
  intros Hlimit. unfold Module_apply, root_of.
  destruct limit as [| f]; [done |].
  cbn [apply_fuel]. unfold bind at 1. unfold deref.
  rewrite (ms_root _ _ _ _ _ _ _ Hstore). cbn [children_of].
  rewrite dedup_NoDup; [| distinct_addrs | intros x _; apply not_elem_of_nil].
  cbn [for_each]. unfold bind at 1. unfold bind at 1. unfold bind at 1.
  by rewrite apply_fuel_stack_raises by lia.
Qed.

End BuiltTooDeep.

(** * The claims *)

(** ** Network construction *)

Section Builder.

Variables (n_network n_class : nat) (n_hidden_layers : Z).
Variables (n_hidden_dimension : nat) (activation : string).
Variable s : state.

(** C1.  For [n_hidden_layers >= 1] and [n_hidden_dimension >= 1] (and an
    activation the builder accepts), the builder returns a network that
    contains exactly [n_hidden_layers + 1] [Linear] layers. *)
Theorem affine_layer_count :
  (1 <= n_hidden_layers)%Z ->
  1 <= n_hidden_dimension ->
  activation = "tanh" \/ activation = "relu" ->
  exists root s',
    get_multilayer_perceptron n_network n_class n_hidden_layers
      n_hidden_dimension activation s = Ret root s'
    /\ length (linear_layers (heap s') root) = Z.to_nat (n_hidden_layers + 1).
Proof.
  intros Hn _ [act Hact]%activation_of_supported.
  destruct (build_run n_network n_class n_hidden_layers n_hidden_dimension
              activation act s Hact) as (s' & Hrun & Hstore & _).
  eexists _, s'. split; [exact Hrun |].
  fold (root_of (length (heap s)) (Z.to_nat (n_hidden_layers - 1))).
  rewrite (linear_layers_mlp _ _ _ _ _ _ _ Hstore).
  cbn [length]. rewrite length_fmap, length_seq. lia.
Qed.

(** C2.  The builder either returns a network, and then the activation is
    ['tanh'] or ['relu'], or raises [NotImplementedError] from the state it
    was called in, and then the activation is neither.  So it succeeds on
    exactly the two recognised values and fails on every other one.  What it
    returns on success is a container allocated by the call whose layers are
    those of the requested perceptron, with the activation that was
    named. *)
Theorem activation_check :
  (exists root s' act,
      get_multilayer_perceptron n_network n_class n_hidden_layers
        n_hidden_dimension activation s = Ret root s'
      /\ (activation = "tanh" /\ act = KTanh
          \/ activation = "relu" /\ act = KReLU)
      /\ length (heap s) <= root
      /\ (exists cs, heap s' !! root = Some (Sequential cs))
      /\ map (describe (heap s')) (layers (heap s') root)
         = map Some
             ([Affine n_network n_hidden_dimension; Activation act]
              ++ concat (replicate (Z.to_nat (n_hidden_layers - 1))
                           [Affine n_hidden_dimension n_hidden_dimension;
                            Activation act])
              ++ [Affine n_hidden_dimension n_class]))
  \/ (get_multilayer_perceptron n_network n_class n_hidden_layers
        n_hidden_dimension activation s
      = Raise (NotImplementedError "Activation function not implemented") s
      /\ activation <> "tanh" /\ activation <> "relu").
Proof.
  destruct (activation_of activation) as [act |] eqn:Hact.
  - left.
    destruct (build_run n_network n_class n_hidden_layers n_hidden_dimension
                activation act s Hact) as (s' & Hrun & Hstore & _).
    eexists _, s', act. split; [exact Hrun |]. split.
    { by apply activation_of_Some_cases. }
    split; [lia |]. split.
    { eexists. apply (ms_root _ _ _ _ _ _ _ Hstore). }
    fold (root_of (length (heap s)) (Z.to_nat (n_hidden_layers - 1))).
    apply (describe_mlp _ _ _ _ _ _ _ Hstore).
  - right. split.
    + unfold get_multilayer_perceptron.
      fold (select_activation activation).
      by rewrite (select_activation_unsupported _ Hact).
    + split; intros ->; discriminate Hact.
Qed.

(** C4.  For [n_hidden_layers >= 1] the layers of the returned network, in
    forward order, are [Linear(n_network, n_hidden_dimension)], the
    activation, [n_hidden_layers - 1] times
    [Linear(n_hidden_dimension, n_hidden_dimension)] and the activation, and
    last [Linear(n_hidden_dimension, n_class)] with nothing after it; the
    widths chain from [n_network] to [n_class]. *)
Theorem layer_sequence (act : activation_kind) :
  (1 <= n_hidden_layers)%Z ->
  activation_of activation = Some act ->
  exists root s',
    get_multilayer_perceptron n_network n_class n_hidden_layers
      n_hidden_dimension activation s = Ret root s'
    /\ map (describe (heap s')) (layers (heap s') root)
       = map Some
           ([Affine n_network n_hidden_dimension; Activation act]
            ++ concat (replicate (Z.to_nat (n_hidden_layers - 1))
                         [Affine n_hidden_dimension n_hidden_dimension;
                          Activation act])
            ++ [Affine n_hidden_dimension n_class])
    /\ chain n_network
         ([Affine n_network n_hidden_dimension; Activation act]
          ++ concat (replicate (Z.to_nat (n_hidden_layers - 1))
                       [Affine n_hidden_dimension n_hidden_dimension;
                        Activation act])
          ++ [Affine n_hidden_dimension n_class])
       = Some n_class.
Proof.
  intros _ Hact.
  destruct (build_run n_network n_class n_hidden_layers n_hidden_dimension
              activation act s Hact) as (s' & Hrun & Hstore & _).
  eexists _, s'. split; [exact Hrun |]. split.
  - fold (root_of (length (heap s)) (Z.to_nat (n_hidden_layers - 1))).
    apply (describe_mlp _ _ _ _ _ _ _ Hstore).
  - apply chain_mlp.
Qed.

(** C5.  For [n_hidden_layers <= 1], zero included, the loop ranges over
    the empty list, and the returned network still has the first hidden
    block: its layers are [Linear(n_network, n_hidden_dimension)], the
    activation and [Linear(n_hidden_dimension, n_class)], two affine layers
    in all. *)
Theorem no_direct_map (act : activation_kind) :
  (n_hidden_layers <= 1)%Z ->
  activation_of activation = Some act ->
  range (n_hidden_layers - 1) = []
  /\ exists root s',
       get_multilayer_perceptron n_network n_class n_hidden_layers
      n_hidden_dimension activation s = Ret root s'
       /\ map (describe (heap s')) (layers (heap s') root)
          = [Some (Affine n_network n_hidden_dimension);
             Some (Activation act);
             Some (Affine n_hidden_dimension n_class)]
       /\ length (linear_layers (heap s') root) = 2.
Proof.
  intros Hn Hact.
  assert (Hk : Z.to_nat (n_hidden_layers - 1) = 0) by lia.
  split; [unfold range; by rewrite Hk |].
  destruct (build_run n_network n_class n_hidden_layers n_hidden_dimension
              activation act s Hact) as (s' & Hrun & Hstore & _).
  rewrite Hk in Hrun, Hstore.
  eexists _, s'. split; [exact Hrun |].
  fold (root_of (length (heap s)) 0). split.
  - apply (describe_mlp _ _ _ _ _ _ _ Hstore).
  - by rewrite (linear_layers_mlp _ _ _ _ _ _ _ Hstore).
Qed.

(** C9.  On an activation that is neither ['tanh'] nor ['relu'] the builder
    raises before anything else happens: the outcome is the exception, not a
    network, and the state it carries is the state of the call, with no
    object allocated and no draw taken. *)
Theorem unsupported_activation_raises_first :
  activation <> "tanh" -> activation <> "relu" ->
  get_multilayer_perceptron n_network n_class n_hidden_layers
    n_hidden_dimension activation s
  = Raise (NotImplementedError "Activation function not implemented") s.
Proof.
  intros H1 H2. unfold get_multilayer_perceptron.
  fold (select_activation activation).
  by rewrite (select_activation_unsupported _
                (activation_of_unsupported _ H1 H2)).
Qed.

(** C10.  The builder allocates its activation object first, at the address
    [length (heap s)], and never another one: every activation position of
    the returned network holds that address, once per hidden block, and no
    other object allocated by the call is an activation. *)
Theorem one_shared_activation (act : activation_kind) :
  activation_of activation = Some act ->
  exists root s',
    get_multilayer_perceptron n_network n_class n_hidden_layers
      n_hidden_dimension activation s = Ret root s'
    /\ heap s' !! length (heap s) = Some (activation_obj act)
    /\ filter (fun a => is_activation (heap s') a = true)
         (layers (heap s') root)
       = replicate (S (Z.to_nat (n_hidden_layers - 1))) (length (heap s))
    /\ (forall x, length (heap s) <= x ->
                  is_activation (heap s') x = true -> x = length (heap s))
    /\ (forall x, x ∈ linear_layers (heap s') root -> length (heap s) < x).
Proof.
  intros Hact.
  destruct (build_run n_network n_class n_hidden_layers n_hidden_dimension
              activation act s Hact) as (s' & Hrun & Hstore & _).
  eexists _, s'. split; [exact Hrun |].
  fold (root_of (length (heap s)) (Z.to_nat (n_hidden_layers - 1))).
  split; [apply Hstore |]. split; [| split].
  - apply (activation_layers_mlp _ _ _ _ _ _ _ Hstore).
  - apply (mlp_store_activation_unique _ _ _ _ _ _ _ Hstore).
  - rewrite (linear_layers_mlp _ _ _ _ _ _ _ Hstore).
    intros x [-> | (i & -> & _)%list_elem_of_fmap]%elem_of_cons; lia.
Qed.

End Builder.

(** ** Weight initialisation *)

Section Initialiser.

Variables (limit : nat) (s : state) (root : addr).
Hypothesis Hwf : heap_wf (heap s).
Hypothesis Hroot : root < length (heap s).

(** C3.  When the network is nested within the recursion budget,
    [net.apply(init_weights)] returns, and afterwards every [Linear] of the
    network has its whole weight and its whole bias made of draws asked from
    [Normal(0, 0.5)] during the call, the storage still of the size of the
    shape; no two entries of the network's [Linear] layers hold the same
    draw. *)
Theorem init_weights_normal_draws :
  nested_within (heap s) limit root ->
  exists s',
    Module_apply limit init_weights root s = Ret root s'
    /\ (forall d a i n w b,
          descendant (heap s) d root a ->
          heap s !! a = Some (Linear i n w b) ->
          exists w' b',
            heap s' !! a = Some (Linear i n w' b')
            /\ length (data w') = numel (shape w)
            /\ length (data b') = numel (shape b)
            /\ Forall (fresh_normal (rng s) (rng s')) (data w' ++ data b'))
    /\ (forall d1 d2 a1 a2 o1 o2 j1 j2 e1 e2,
          descendant (heap s) d1 root a1 ->
          descendant (heap s) d2 root a2 ->
          heap s' !! a1 = Some o1 -> heap s' !! a2 = Some o2 ->
          entries o1 !! j1 = Some e1 -> entries o2 !! j2 = Some e2 ->
          pos e1 = pos e2 -> a1 = a2 /\ j1 = j2).
Proof.
  intros Hfit. eexists. split; [by apply apply_init_weights_run |].
  set (l := visits_fuel limit (heap s) root). split.
  - intros d a i n w b Hdesc Ha.
    assert (Hin : a ∈ l) by (eapply descendant_visits; eauto).
    destruct (reinit_all_fresh l s a Hin) as (o' & Ho' & Hr).
    { unfold is_Linear. by rewrite Ha. }
    destruct (proj2 (reinit_all_shape l s) a _ Ha) as (o'' & Ho'' & Hs).
    rewrite Ho' in Ho''. injection Ho'' as <-.
    destruct o' as [i' n' w' b' | | |]; try done.
    destruct Hs as (<- & <- & Hsw & Hsb & _). destruct Hr as (Hw & Hb & Hall).
    exists w', b'. unfold sized in Hw, Hb. rewrite Hsw, Hsb. auto.
  - intros d1 d2 a1 a2 o1 o2 j1 j2 e1 e2 Hd1 Hd2.
    apply (reinit_all_distinct l s);
      (eapply descendant_visits; eauto).
Qed.


(** C7.  [net.apply(init_weights)], whether it returns or the recursion
    budget makes it raise (it returns when the network is nested within the
    budget), allocates nothing, leaves every object that is not a [Linear]
    as it was (a call of [init_weights] on such an object changes nothing at
    all), and leaves a [Linear] a [Linear] with the same features: only its
    weight and bias may differ. *)
Theorem init_weights_frame :
  exists s',
    ends_in (Module_apply limit init_weights root s) root s'
    /\ (nested_within (heap s) limit root ->
        Module_apply limit init_weights root s = Ret root s')
    /\ length (heap s') = length (heap s)
    /\ (forall a o,
          heap s !! a = Some o -> is_Linear (heap s) a = false ->
          heap s' !! a = Some o /\ init_weights a s = Ret tt s)
    /\ (forall a i n w b,
          heap s !! a = Some (Linear i n w b) ->
          exists w' b', heap s' !! a = Some (Linear i n w' b')).
Proof.
  destruct (apply_init_weights_ends limit s root Hwf Hroot) as (l & _ & Hend).
  exists (reinit_all l s). split; [exact Hend |]. split.
  { intros Hfit. eapply ends_in_returns; [exact Hend |].
    by apply apply_init_weights_run. }
  destruct (reinit_all_shape l s) as [Hlen Hsh].
  split; [done |]. split.
  - intros a o Ha Hlin. destruct (Hsh a o Ha) as (o' & Ho' & Hs). split.
    + rewrite Ho'. f_equal. unfold is_Linear in Hlin. rewrite Ha in Hlin.
      destruct o, o'; cbn in Hs; try done. by subst.
    + rewrite init_weights_run by (by eexists). f_equal.
      unfold reinit. rewrite Ha. unfold is_Linear in Hlin. rewrite Ha in Hlin.
      by destruct o.
  - intros a i n w b Ha. destruct (Hsh a _ Ha) as (o' & Ho' & Hs).
    destruct o' as [i' n' w' b' | | |]; try done.
    destruct Hs as (<- & <- & _). eauto.
Qed.

(** C8.  However many times [net.apply(init_weights)] is repeated, and
    whether the loop returns or the recursion budget makes it raise (it
    returns when the network is nested within the budget), the store keeps
    its objects and every [Linear] keeps its features and the shapes of its
    weight and bias, with storage of the size of the shape wherever it was
    so before. *)
Theorem repeated_init_keeps_shapes (nruns : nat) :
  exists s',
    ends_in (repeat_apply limit nruns init_weights root s) tt s'
    /\ (nested_within (heap s) limit root ->
        repeat_apply limit nruns init_weights root s = Ret tt s')
    /\ length (heap s') = length (heap s)
    /\ forall a i n w b,
         heap s !! a = Some (Linear i n w b) ->
         exists w' b',
           heap s' !! a = Some (Linear i n w' b')
           /\ shape w' = shape w /\ shape b' = shape b
           /\ (sized w -> sized w') /\ (sized b -> sized b').
Proof.
  destruct (repeat_apply_ends limit nruns s root Hwf Hroot) as (l & _ & Hend).
  exists (reinit_all l s). split; [exact Hend |]. split.
  { intros Hfit.
    destruct (repeat_apply_run limit nruns s root Hwf Hroot Hfit)
      as (s'' & Hrun & _).
    by eapply ends_in_returns. }
  destruct (reinit_all_shape l s) as [Hlen Hsh]. split; [done |].
  intros a i n w b Ha. destruct (Hsh a _ Ha) as (o' & Ho' & Hs).
  destruct o' as [i' n' w' b' | | |]; try done.
  destruct Hs as (<- & <- & Hsw & Hsb & Hw & Hb). exists w', b'.
  by rewrite Hsw, Hsb.
Qed.

End Initialiser.

(** ** The statements at concrete inputs *)

Lemma demo_state_wf : heap_wf (heap demo_state).
Proof. apply heap_wf_check. vm_compute. reflexivity. Defined.

Lemma demo_root_valid : demo_root < length (heap demo_state).
Proof. vm_compute. lia. Defined.

Lemma affine_layer_count_witness :
  (1 <= 3)%Z /\ 1 <= 32 /\ ("tanh" = "tanh" \/ "tanh" = "relu")
  /\ exists root s',
       get_multilayer_perceptron 1 1 3 32 "tanh" empty_state = Ret root s'
       /\ length (linear_layers (heap s') root) = Z.to_nat (3 + 1).
Proof.
  split; [lia |]. split; [lia |]. split; [by left |].
  apply (affine_layer_count 1 1 3 32 "tanh" empty_state); [lia | lia | by left].
Defined.

Lemma layer_sequence_witness :
  (1 <= 3)%Z /\ activation_of "relu" = Some KReLU
  /\ exists root s',
       get_multilayer_perceptron 1 1 3 32 "relu" empty_state = Ret root s'
       /\ map (describe (heap s')) (layers (heap s') root)
          = map Some
              ([Affine 1 32; Activation KReLU]
               ++ concat (replicate (Z.to_nat (3 - 1))
                            [Affine 32 32; Activation KReLU])
               ++ [Affine 32 1])
       /\ chain 1
            ([Affine 1 32; Activation KReLU]
             ++ concat (replicate (Z.to_nat (3 - 1))
                          [Affine 32 32; Activation KReLU])
             ++ [Affine 32 1])
          = Some 1.
Proof.
  split; [lia |]. split; [reflexivity |].
  apply (layer_sequence 1 1 3 32 "relu" empty_state KReLU); [lia | reflexivity].
Defined.

Lemma no_direct_map_witness :
  (0 <= 1)%Z /\ activation_of "tanh" = Some KTanh
  /\ range (0 - 1) = []
  /\ exists root s',
       get_multilayer_perceptron 2 1 0 32 "tanh" empty_state = Ret root s'
       /\ map (describe (heap s')) (layers (heap s') root)
          = [Some (Affine 2 32); Some (Activation KTanh); Some (Affine 32 1)]
       /\ length (linear_layers (heap s') root) = 2.
Proof.
  split; [lia |]. split; [reflexivity |].
  apply (no_direct_map 2 1 0 32 "tanh" empty_state KTanh); [lia | reflexivity].
Defined.

Lemma unsupported_activation_raises_first_witness :
  "sigmoid" <> "tanh" /\ "sigmoid" <> "relu"
  /\ get_multilayer_perceptron 1 1 1 32 "sigmoid" empty_state
     = Raise (NotImplementedError "Activation function not implemented")
         empty_state.
Proof.
  split; [discriminate |]. split; [discriminate |].
  apply (unsupported_activation_raises_first 1 1 1 32 "sigmoid" empty_state);
    discriminate.
Defined.

Lemma one_shared_activation_witness :
  activation_of "tanh" = Some KTanh
  /\ exists root s',
       get_multilayer_perceptron 2 1 7 32 "tanh" empty_state = Ret root s'
       /\ heap s' !! length (heap empty_state) = Some (activation_obj KTanh)
       /\ filter (fun a => is_activation (heap s') a = true)
            (layers (heap s') root)
          = replicate (S (Z.to_nat (7 - 1))) (length (heap empty_state))
       /\ (forall x, length (heap empty_state) <= x ->
                     is_activation (heap s') x = true ->
                     x = length (heap empty_state))
       /\ (forall x, x ∈ linear_layers (heap s') root ->
                     length (heap empty_state) < x).
Proof.
  split; [reflexivity |].
  apply (one_shared_activation 2 1 7 32 "tanh" empty_state KTanh). reflexivity.
Defined.

Lemma demo_nested : nested_within (heap demo_state) 1000 demo_root.
Proof.
  apply nested_within_wf; [exact demo_state_wf | unfold demo_root; lia].
Defined.

Lemma init_weights_normal_draws_witness :
  heap_wf (heap demo_state) /\ demo_root < length (heap demo_state)
  /\ nested_within (heap demo_state) 1000 demo_root
  /\ exists s',
       Module_apply 1000 init_weights demo_root demo_state = Ret demo_root s'
       /\ (forall d a i n w b,
             descendant (heap demo_state) d demo_root a ->
             heap demo_state !! a = Some (Linear i n w b) ->
             exists w' b',
               heap s' !! a = Some (Linear i n w' b')
               /\ length (data w') = numel (shape w)
               /\ length (data b') = numel (shape b)
               /\ Forall (fresh_normal (rng demo_state) (rng s'))
                    (data w' ++ data b'))
       /\ (forall d1 d2 a1 a2 o1 o2 j1 j2 e1 e2,
             descendant (heap demo_state) d1 demo_root a1 ->
             descendant (heap demo_state) d2 demo_root a2 ->
             heap s' !! a1 = Some o1 -> heap s' !! a2 = Some o2 ->
             entries o1 !! j1 = Some e1 -> entries o2 !! j2 = Some e2 ->
             pos e1 = pos e2 -> a1 = a2 /\ j1 = j2).
Proof.
  split; [exact demo_state_wf |]. split; [exact demo_root_valid |].
  split; [exact demo_nested |].
  exact (init_weights_normal_draws 1000 demo_state demo_root
           demo_state_wf demo_root_valid demo_nested).
Defined.



Lemma init_weights_frame_witness :
  heap_wf (heap demo_state) /\ demo_root < length (heap demo_state)
  /\ exists s',
       ends_in (Module_apply 1000 init_weights demo_root demo_state)
         demo_root s'
       /\ (nested_within (heap demo_state) 1000 demo_root ->
           Module_apply 1000 init_weights demo_root demo_state
           = Ret demo_root s')
       /\ length (heap s') = length (heap demo_state)
       /\ (forall a o,
             heap demo_state !! a = Some o ->
             is_Linear (heap demo_state) a = false ->
             heap s' !! a = Some o /\ init_weights a demo_state = Ret tt demo_state)
       /\ (forall a i n w b,
             heap demo_state !! a = Some (Linear i n w b) ->
             exists w' b', heap s' !! a = Some (Linear i n w' b')).
Proof.
  split; [exact demo_state_wf |]. split; [exact demo_root_valid |].
  exact (init_weights_frame 1000 demo_state demo_root
           demo_state_wf demo_root_valid).
Defined.

Lemma repeated_init_keeps_shapes_witness :
  heap_wf (heap demo_state) /\ demo_root < length (heap demo_state)
  /\ exists s',
       ends_in (repeat_apply 1000 5 init_weights demo_root demo_state) tt s'
       /\ (nested_within (heap demo_state) 1000 demo_root ->
           repeat_apply 1000 5 init_weights demo_root demo_state = Ret tt s')
       /\ length (heap s') = length (heap demo_state)
       /\ forall a i n w b,
            heap demo_state !! a = Some (Linear i n w b) ->
            exists w' b',
              heap s' !! a = Some (Linear i n w' b')
              /\ shape w' = shape w /\ shape b' = shape b
              /\ (sized w -> sized w') /\ (sized b -> sized b').
Proof.
  split; [exact demo_state_wf |]. split; [exact demo_root_valid |].
  exact (repeated_init_keeps_shapes 1000 demo_state demo_root
           demo_state_wf demo_root_valid 5).
Defined.

(** ** Small runs *)

Example layers_3 :
  match get_multilayer_perceptron 1 1 3 2 "tanh" empty_state with
  | Ret root s => layers (heap s) root = [1; 0; 3; 0; 5; 0; 7]
                  /\ linear_layers (heap s) root = [1; 3; 5; 7]
  | _ => False
  end.
Proof. vm_compute. split; reflexivity. Qed.

Example build_sigmoid :
  get_multilayer_perceptron 1 1 1 32 "sigmoid" empty_state
  = Raise (NotImplementedError "Activation function not implemented")
      empty_state.
Proof. reflexivity. Qed.

Example build_negative_count :
  match get_multilayer_perceptron 2 1 (-3) 4 "relu" empty_state with
  | Ret root s' =>
      root = 4
      /\ map (describe (heap s')) (layers (heap s') root)
         = [Some (Affine 2 4); Some (Activation KReLU); Some (Affine 4 1)]
  | _ => False
  end.
Proof. vm_compute. split; reflexivity. Qed.

Example demo_layers :
  layers (heap demo_state) demo_root = [1; 0; 3; 0; 5; 0; 7]
  /\ visits (heap demo_state) demo_root = [1; 0; 2; 3; 0; 4; 5; 0; 6; 7; 8].
Proof. vm_compute. split; reflexivity. Qed.

Example demo_apply_draws :
  match Module_apply 1000 init_weights demo_root demo_state with
  | Ret root s' =>
      root = demo_root
      /\ rng demo_state = 57
      /\ rng s' = 114
      /\ map pos (flat_map entries (heap s')) = seq 57 57
  | _ => False
  end.
Proof. vm_compute. repeat split; reflexivity. Qed.

(** A [Linear] registered in two containers is called on twice; its
    parameters are those of the second call. *)
Example shared_linear_called_twice :
  let t := Tensor [1; 1] [Draw LibraryDefault 0] in
  let u := Tensor [1] [Draw LibraryDefault 1] in
  let s := State [Linear 1 1 t u; Sequential [0]; Sequential [0];
                  Sequential [1; 2; 1]] 2 in
  visits (heap s) 3 = [0; 1; 0; 2; 3]
  /\ match Module_apply 1000 init_weights 3 s with
     | Ret _ s' => map pos (flat_map entries (heap s')) = [4; 5] /\ rng s' = 6
     | _ => False
     end
  /\ Module_apply 2 init_weights 3 s = Raise RecursionError s.
Proof. vm_compute. repeat split; reflexivity. Qed.

(** * Further properties *)

(** ** The builder and the store *)

(** Whatever the builder returns is the network of [mlp_store], put on top
    of the old store. *)
Lemma build_inv n_network n_class n_hidden_layers n_hidden_dimension
    activation (s s' : state) (root : addr) :
  get_multilayer_perceptron n_network n_class n_hidden_layers
    n_hidden_dimension activation s = Ret root s' ->
  exists act ext,
    activation_of activation = Some act
    /\ root = root_of (length (heap s)) (Z.to_nat (n_hidden_layers - 1))
    /\ mlp_store n_network n_class n_hidden_dimension act (heap s')
         (length (heap s)) (Z.to_nat (n_hidden_layers - 1))
    /\ heap s' = heap s ++ ext.
Proof.
  intros Hrun. destruct (activation_of activation) as [act |] eqn:Hact.
  - destruct (build_run n_network n_class n_hidden_layers n_hidden_dimension
                activation act s Hact) as (s1 & Hrun1 & Hstore & ext & Hext).
    rewrite Hrun1 in Hrun. injection Hrun as <- <-. by exists act, ext.
  - unfold get_multilayer_perceptron in Hrun.
    fold (select_activation activation) in Hrun.
    by rewrite (select_activation_unsupported _ Hact) in Hrun.
Qed.

Lemma flat_map_ext_elem {A B} (f g : A -> list B) (l : list A) :
  (forall x, x ∈ l -> f x = g x) -> flat_map f l = flat_map g l.
Proof.
  induction l as [| x l IH]; intros Hfg; [done |]. cbn [flat_map].
  rewrite Hfg by left. rewrite IH; [done |]. intros y Hy. apply Hfg. by right.
Qed.

(** The layers of a network do not depend on objects allocated later. *)
Lemma layers_fuel_grow (h ext : list module_obj) (f : nat) (m : addr) :
  heap_wf h -> m < length h ->
  layers_fuel f (h ++ ext) m = layers_fuel f h m.
Proof.
  intros Hwf. revert m. induction f as [| f IH]; intros m Hm; [done |].
  cbn [layers_fuel]. rewrite lookup_app_l by done.
  destruct (h !! m) as [[i n w b | | | cs] |] eqn:Ho; try done.
  apply flat_map_ext_elem. intros c Hc. apply IH.
  specialize (Hwf m cs c Ho Hc). lia.
Qed.

(** X1.  A call of the builder that returns has only allocated: the old
    store is a prefix of the new one, [5 + 2 * max(n_hidden_layers - 1, 0)]
    objects were added, the returned module is the last of them, and every
    network of the old store has the layers it had. *)
Theorem build_only_allocates n_network n_class n_hidden_layers
    n_hidden_dimension activation (s s' : state) (root : addr) :
  get_multilayer_perceptron n_network n_class n_hidden_layers
    n_hidden_dimension activation s = Ret root s' ->
  exists ext,
    heap s' = heap s ++ ext
    /\ length ext = 5 + 2 * Z.to_nat (n_hidden_layers - 1)
    /\ S root = length (heap s')
    /\ (heap_wf (heap s) ->
        forall m, m < length (heap s) ->
                  layers (heap s') m = layers (heap s) m).
Proof.
  intros Hrun.
  destruct (build_inv _ _ _ _ _ _ _ _ Hrun)
    as (act & ext & Hact & -> & Hstore & Hext).
  pose proof (ms_length _ _ _ _ _ _ _ Hstore) as Hlen.
  exists ext. split; [done |]. split; [| split].
  - rewrite Hext, length_app in Hlen. lia.
  - unfold root_of. lia.
  - intros Hwf m Hm. rewrite Hext. by apply layers_fuel_grow.
Qed.

(** X2.  A hidden-layer count of zero, or a negative one, is not told apart
    from a count of one: the builder does the very same thing. *)
Theorem count_below_one_is_one n_network n_class n_hidden_layers
    n_hidden_dimension activation (s : state) :
  (n_hidden_layers <= 1)%Z ->
  get_multilayer_perceptron n_network n_class n_hidden_layers
    n_hidden_dimension activation s
  = get_multilayer_perceptron n_network n_class 1
      n_hidden_dimension activation s.
Proof.
  intros Hn. unfold get_multilayer_perceptron.
  assert (Hr : range (n_hidden_layers - 1) = range (1 - 1)).
  { unfold range. by replace (Z.to_nat (n_hidden_layers - 1)) with 0 by lia. }
  by rewrite Hr.
Qed.

(** ** Parameter counts *)

Lemma sum_list_append (l1 l2 : list nat) :
  sum_list (l1 ++ l2) = sum_list l1 + sum_list l2.
Proof.
  induction l1 as [| x l1 IH]; [done |]. cbn [app sum_list]. rewrite IH. lia.
Qed.

Lemma sum_list_const (f : addr -> nat) (c : nat) (l : list addr) :
  (forall x, x ∈ l -> f x = c) -> sum_list (f <$> l) = length l * c.
Proof.
  induction l as [| x l IH]; intros Hf; [done |].
  cbn [fmap list_fmap sum_list length]. fold (fmap f l).
  rewrite Hf by left. rewrite IH; [reflexivity |].
  intros y Hy. apply Hf. by right.
Qed.

Lemma linear_at_params (h : list module_obj) (a : addr) (i n : nat) :
  linear_at h a i n -> params_at h a = n * i + n.
Proof.
  intros (w & b & Ha & Hw & Hb). unfold params_at. rewrite Ha.
  cbn [from_option n_params]. rewrite Hw, Hb. cbn [numel fold_right].
  by rewrite !Nat.mul_1_r.
Qed.

Lemma param_count_mlp n_network n_class n_hidden_dimension act
    (h : list module_obj) (base k : nat) :
  mlp_store n_network n_class n_hidden_dimension act h base k ->
  param_count h (root_of base k)
  = (n_hidden_dimension * n_network + n_hidden_dimension)
    + k * (n_hidden_dimension * n_hidden_dimension + n_hidden_dimension)
    + (n_class * n_hidden_dimension + n_class).
Proof.
  intros Hstore.
  pose proof (ms_blocks _ _ _ _ _ _ _ Hstore) as Hblocks.
  unfold param_count. rewrite (linear_layers_mlp _ _ _ _ _ _ _ Hstore).
  rewrite seq_S, fmap_app, fmap_cons, fmap_app. cbn [sum_list].
  rewrite sum_list_append. cbn [fmap list_fmap sum_list Nat.add]. unfold id.
  rewrite (linear_at_params _ _ _ _ (hb_first _ _ _ _ _ _ Hblocks)).
  rewrite (linear_at_params _ _ _ _ (ms_last _ _ _ _ _ _ _ Hstore)).
  rewrite <- list_fmap_compose.
  rewrite (sum_list_const _
             (n_hidden_dimension * n_hidden_dimension + n_hidden_dimension)).
  - rewrite length_seq, Nat.add_0_r. by rewrite Nat.add_assoc.
  - intros j [_ Hj]%elem_of_seq. cbn.
    apply (linear_at_params _ _ _ _ (hb_linear _ _ _ _ _ _ Hblocks j ltac:(lia))).
Qed.

(** X3.  The network built for an accepted activation has
    [(hid * in + hid) + (n - 1) * (hid * hid + hid) + (out * hid + out)]
    parameters, the middle term vanishing when [n_hidden_layers <= 1]. *)
Theorem built_param_count n_network n_class n_hidden_layers
    n_hidden_dimension activation (s s' : state) (root : addr) :
  get_multilayer_perceptron n_network n_class n_hidden_layers
    n_hidden_dimension activation s = Ret root s' ->
  param_count (heap s') root
  = (n_hidden_dimension * n_network + n_hidden_dimension)
    + Z.to_nat (n_hidden_layers - 1)
      * (n_hidden_dimension * n_hidden_dimension + n_hidden_dimension)
    + (n_class * n_hidden_dimension + n_class).
Proof.
  intros Hrun.
  destruct (build_inv _ _ _ _ _ _ _ _ Hrun)
    as (act & ext & Hact & -> & Hstore & Hext).
  by apply (param_count_mlp _ _ _ _ _ _ _ Hstore).
Qed.

(** ** What [apply] touches *)

(** X4.  [net.apply(init_weights)], whether it returns or the recursion
    budget makes it raise, leaves alone whatever is not the network or below
    it: an object that is not a descendant of the root is the same
    afterwards, parameters included; objects allocated after the root are
    among these. *)
Theorem apply_touches_only_descendants (limit : nat) (s : state) (root : addr) :
  heap_wf (heap s) -> root < length (heap s) ->
  exists s',
    ends_in (Module_apply limit init_weights root s) root s'
    /\ (nested_within (heap s) limit root ->
        Module_apply limit init_weights root s = Ret root s')
    /\ (forall a, (forall d, ~ descendant (heap s) d root a) ->
                  heap s' !! a = heap s !! a)
    /\ (forall a, root < a -> heap s' !! a = heap s !! a).
Proof.
  intros Hwf Hroot.
  destruct (apply_init_weights_ends limit s root Hwf Hroot) as (l & Hl & Hend).
  exists (reinit_all l s). split; [exact Hend |]. split.
  { intros Hfit. eapply ends_in_returns; [exact Hend |].
    by apply apply_init_weights_run. }
  assert (Hout : forall a, (forall d, ~ descendant (heap s) d root a) ->
                   heap (reinit_all l s) !! a = heap s !! a).
  { intros a Hnd. apply reinit_all_frame.
    intros (d & Hd)%Hl. by eapply Hnd. }
  split; [done |]. intros a Ha. apply Hout. intros d Hd.
  pose proof (descendant_le _ _ _ _ Hwf Hd). lia.
Qed.

(** ** Draws taken by one pass *)






Section BuiltVisits.

Variables (n_network n_class n_hidden_dimension : nat) (act : activation_kind).
Variables (h : list module_obj) (base k : nat).
Hypothesis Hstore : mlp_store n_network n_class n_hidden_dimension act h base k.





End BuiltVisits.


(** ** Repeated passes *)

(** The last of [S n] passes starts from the state the first [n] leave. *)
Lemma repeat_apply_last (limit n : nat) (s : state) (root : addr) :
  heap_wf (heap s) -> root < length (heap s) ->
  nested_within (heap s) limit root ->
  exists s_mid,
    repeat_apply limit n init_weights root s = Ret tt s_mid
    /\ shape_preserved (heap s) (heap s_mid)
    /\ repeat_apply limit (S n) init_weights root s
       = Ret tt (reinit_all (visits_fuel limit (heap s_mid) root) s_mid).
Proof.
  revert s. induction n as [| n IH]; intros s Hwf Hroot Hfit.
  - exists s. split; [done |]. split; [apply shape_preserved_refl |].
    cbn [repeat_apply]. unfold bind.
    by rewrite apply_init_weights_run.
  - set (s1 := reinit_all (visits_fuel limit (heap s) root) s).
    pose proof (reinit_all_shape (visits_fuel limit (heap s) root) s) as Hsh1.
    fold s1 in Hsh1.
    destruct (IH s1) as (s_mid & Hrun & Hsh & Hlast).
    { by eapply shape_preserved_wf. }
    { by rewrite <- (proj1 Hsh1). }
    { by eapply nested_within_shape_preserved. }
    exists s_mid. split; [| split].
    + cbn [repeat_apply]. unfold bind at 1.
      by rewrite apply_init_weights_run.
    + by eapply shape_preserved_trans.
    + change (repeat_apply limit (S (S n)) init_weights root s)
        with ((_ <- Module_apply limit init_weights root ;;
               repeat_apply limit (S n) init_weights root) s).
      unfold bind at 1. by rewrite apply_init_weights_run.
Qed.

(** X6.  On a network nested within the recursion budget, after one more
    pass nothing of the earlier passes is left: every [Linear] below the root
    holds only draws that the last pass took, at generator positions from the
    state the earlier passes ended in. *)
Theorem last_pass_overwrites (limit n : nat) (s : state) (root : addr) :
  heap_wf (heap s) -> root < length (heap s) ->
  nested_within (heap s) limit root ->
  exists s_mid s',
    repeat_apply limit n init_weights root s = Ret tt s_mid
    /\ repeat_apply limit (S n) init_weights root s = Ret tt s'
    /\ forall d a,
         descendant (heap s) d root a -> is_Linear (heap s) a = true ->
         exists o', heap s' !! a = Some o'
                    /\ redrawn (rng s_mid) (rng s') o'.
Proof.
  intros Hwf Hroot Hfit.
  destruct (repeat_apply_last limit n s root Hwf Hroot Hfit)
    as (s_mid & Hrun & Hsh & Hlast).
  exists s_mid. eexists. split; [done |]. split; [exact Hlast |].
  intros d a Hdesc Hlin.
  apply reinit_all_fresh.
  - eapply descendant_visits; [| by eapply Hfit].
    by apply (descendant_shape_preserved _ _ _ _ _ Hsh).
  - by rewrite (shape_preserved_is_Linear _ _ _ Hsh).
Qed.

(** ** Two networks in one store *)

Lemma mlp_descendant_ge n_network n_class n_hidden_dimension act
    (h : list module_obj) (base k d : nat) (m a : addr) :
  mlp_store n_network n_class n_hidden_dimension act h base k ->
  base <= m -> descendant h d m a -> base <= a.
Proof.
  intros Hstore Hm Hdesc.
  induction Hdesc as [m _ | d m cs c a Hlook Hc _ IH]; [done |].
  apply IH.
  destruct (mlp_store_cases _ _ _ _ _ _ _ Hstore m _ Hm Hlook)
    as [-> | [(i & n & w & b & [=]) | (cs' & [= <-] & Hcs)]].
  - rewrite (hb_act _ _ _ _ _ _ (ms_blocks _ _ _ _ _ _ _ Hstore)) in Hlook.
    by destruct act.
  - apply Hcs in Hc. lia.
Qed.

(** X7.  Of two networks built one after the other, as [net3] and [net7]
    are, neither is touched by the initialisation of the other, whether the
    calls return or the recursion budget makes them raise:
    [net2.apply(init_weights)] changes no object that existed before [net2]
    was built, [net1.apply(init_weights)] changes no object allocated for
    [net2], and initialising [net1] and then [net2] leaves [net1] as its own
    initialisation made it. *)
Theorem networks_initialised_apart
    (i1 c1 : nat) (n1 : Z) (h1 : nat) (a1 : string)
    (i2 c2 : nat) (n2 : Z) (h2 : nat) (a2 : string)
    (limit : nat) (s s1 s2 : state) (net1 net2 : addr) :
  heap_wf (heap s) ->
  get_multilayer_perceptron i1 c1 n1 h1 a1 s = Ret net1 s1 ->
  get_multilayer_perceptron i2 c2 n2 h2 a2 s1 = Ret net2 s2 ->
  (exists s3,
     ends_in (Module_apply limit init_weights net2 s2) net2 s3
     /\ (nested_within (heap s2) limit net2 ->
         Module_apply limit init_weights net2 s2 = Ret net2 s3)
     /\ forall a, a < length (heap s1) -> heap s3 !! a = heap s1 !! a)
  /\ (exists s3,
        ends_in (Module_apply limit init_weights net1 s2) net1 s3
        /\ (nested_within (heap s2) limit net1 ->
            Module_apply limit init_weights net1 s2 = Ret net1 s3)
        /\ (forall a, length (heap s1) <= a -> heap s3 !! a = heap s2 !! a)
        /\ exists s4,
             ends_in (Module_apply limit init_weights net2 s3) net2 s4
             /\ (nested_within (heap s2) limit net2 ->
                 Module_apply limit init_weights net2 s3 = Ret net2 s4)
             /\ forall a, a < length (heap s1) -> heap s4 !! a = heap s3 !! a).
Proof.
  intros Hwf Hrun1 Hrun2.
  destruct (build_wf _ _ _ _ _ _ _ _ Hwf Hrun1) as [Hwf1 Hroot1].
  destruct (build_wf _ _ _ _ _ _ _ _ Hwf1 Hrun2) as [Hwf2 Hroot2].
  destruct (build_inv _ _ _ _ _ _ _ _ Hrun2)
    as (act & ext & Hact & Hnet2 & Hstore & Hext).
  assert (Hbase : length (heap s1) <= net2)
    by (rewrite Hnet2; unfold root_of; lia).
  assert (Hroot1' : net1 < length (heap s2))
    by (rewrite Hext, length_app; lia).
  split.
  - destruct (apply_init_weights_ends limit s2 net2 Hwf2 Hroot2)
      as (l & Hl & Hend).
    exists (reinit_all l s2). split; [exact Hend |]. split.
    { intros Hfit. eapply ends_in_returns; [exact Hend |].
      by apply apply_init_weights_run. }
    intros a Ha. rewrite reinit_all_frame.
    + rewrite Hext. by apply lookup_app_l.
    + intros (d & Hd)%Hl.
      pose proof (mlp_descendant_ge _ _ _ _ _ _ _ d net2 a Hstore Hbase Hd).
      lia.
  - destruct (apply_init_weights_ends limit s2 net1 Hwf2 Hroot1')
      as (l & Hl & Hend).
    set (s3 := reinit_all l s2).
    pose proof (reinit_all_shape l s2) as Hsh. fold s3 in Hsh.
    exists s3. split; [exact Hend |]. split.
    { intros Hfit. eapply ends_in_returns; [exact Hend |].
      by apply apply_init_weights_run. }
    split.
    { intros a Ha. apply reinit_all_frame. intros (d & Hd)%Hl.
      pose proof (descendant_le _ _ _ _ Hwf2 Hd). lia. }
    assert (Hwf3 : heap_wf (heap s3)) by (by eapply shape_preserved_wf).
    assert (Hroot3 : net2 < length (heap s3)) by (by rewrite <- (proj1 Hsh)).
    destruct (apply_init_weights_ends limit s3 net2 Hwf3 Hroot3)
      as (l' & Hl' & Hend').
    exists (reinit_all l' s3). split; [exact Hend' |]. split.
    { intros Hfit. eapply ends_in_returns; [exact Hend' |].
      apply apply_init_weights_run; [done.. |].
      by eapply nested_within_shape_preserved. }
    intros a Ha. apply reinit_all_frame. intros (d & Hd)%Hl'.
    apply (descendant_shape_preserved _ _ _ _ _ Hsh) in Hd.
    pose proof (mlp_descendant_ge _ _ _ _ _ _ _ d net2 a Hstore Hbase Hd).
    lia.
Qed.

(** ** Initialisation keeps the architecture *)

Section SameArchitecture.

Variables h h' : list module_obj.
Hypothesis Hsh : shape_preserved h h'.

Lemma shape_preserved_kind (a : addr) :
  match h !! a, h' !! a with
  | Some (Linear i n _ _), Some (Linear i' n' _ _) => i = i' /\ n = n'
  | Some Tanh, Some Tanh | Some ReLU, Some ReLU => True
  | Some (Sequential cs), Some (Sequential cs') => cs = cs'
  | None, None => True
  | _, _ => False
  end.
Proof.
  destruct Hsh as [Hlen Hobj]. destruct (h !! a) as [o |] eqn:Ho.
  - destruct (Hobj a o Ho) as (o' & -> & Hs).
    destruct o, o'; cbn in Hs; try done. tauto.
  - apply lookup_ge_None in Ho. rewrite Hlen in Ho.
    apply lookup_ge_None in Ho. by rewrite Ho.
Qed.

Lemma shape_preserved_layers (f : nat) (m : addr) :
  layers_fuel f h' m = layers_fuel f h m.
Proof.
  revert m. induction f as [| f IH]; intros m; [done |]. cbn [layers_fuel].
  pose proof (shape_preserved_kind m) as Hk.
  destruct (h !! m) as [[] |], (h' !! m) as [[] |]; try done.
  subst. apply flat_map_ext. intros c. apply IH.
Qed.

Lemma shape_preserved_describe (a : addr) : describe h' a = describe h a.
Proof.
  unfold describe. pose proof (shape_preserved_kind a) as Hk.
  destruct (h !! a) as [[] |], (h' !! a) as [[] |]; try done.
  by destruct Hk as [-> ->].
Qed.

Lemma forward_each_ext (run run' : addr -> list nat -> forward_result)
    (cs : list addr) (x : list nat) :
  (forall c y, run c y = run' c y) ->
  forward_each run cs x = forward_each run' cs x.
Proof.
  intros Hrun. revert x. induction cs as [| c cs IH]; intros x; [done |].
  cbn [forward_each]. rewrite Hrun. by destruct (run' c x).
Qed.

Lemma shape_preserved_forward (f : nat) (m : addr) (x : list nat) :
  forward_fuel f h' m x = forward_fuel f h m x.
Proof.
  revert m x. induction f as [| f IH]; intros m x; [done |].
  cbn [forward_fuel]. pose proof (shape_preserved_kind m) as Hk.
  destruct (h !! m) as [[] |], (h' !! m) as [[] |]; try done.
  - by destruct Hk as [-> ->].
  - subst. by apply forward_each_ext.
Qed.

End SameArchitecture.

(** X10.  Passing over a network, any number of times, and whether the
    loop returns or the recursion budget makes it raise, changes nothing of
    its architecture: the layers in forward order, what each of them is, and
    what the forward pass makes of every shape under every budget, for every
    module of the store. *)
Theorem init_keeps_architecture (limit nruns : nat) (s : state) (root : addr) :
  heap_wf (heap s) -> root < length (heap s) ->
  exists s',
    ends_in (repeat_apply limit nruns init_weights root s) tt s'
    /\ (nested_within (heap s) limit root ->
        repeat_apply limit nruns init_weights root s = Ret tt s')
    /\ forall m,
         layers (heap s') m = layers (heap s) m
         /\ describe (heap s') m = describe (heap s) m
         /\ forall call_limit x,
              forward call_limit (heap s') m x
              = forward call_limit (heap s) m x.
Proof.
  intros Hwf Hroot.
  destruct (repeat_apply_ends limit nruns s root Hwf Hroot) as (l & _ & Hend).
  pose proof (reinit_all_shape l s) as Hsh.
  exists (reinit_all l s). split; [exact Hend |]. split.
  { intros Hfit.
    destruct (repeat_apply_run limit nruns s root Hwf Hroot Hfit)
      as (s'' & Hrun & _).
    by eapply ends_in_returns. }
  intros m. split; [| split].
  - by apply shape_preserved_layers.
  - by apply shape_preserved_describe.
  - intros call_limit x. by apply shape_preserved_forward.
Qed.

(** ** The forward pass on a built network *)

Lemma linear_shape_fits (i n : nat) (pre : list nat) :
  linear_shape i n (pre ++ [i]) = Output (pre ++ [n]).
Proof.
  unfold linear_shape. rewrite last_snoc, decide_True by done.
  by rewrite removelast_last.
Qed.

Lemma linear_shape_misfit (i n : nat) (x : list nat) :
  last x <> Some i -> linear_shape i n x = Fails RuntimeError.
Proof.
  unfold linear_shape. intros Hx. destruct (last x) as [d |]; [| done].
  destruct (decide (d = i)) as [-> | _]; [done | done].
Qed.

Section BuiltForward.

Variables (n_network n_class n_hidden_dimension : nat) (act : activation_kind).
Variables (h : list module_obj) (base k : nat).
Hypothesis Hstore : mlp_store n_network n_class n_hidden_dimension act h base k.

Lemma forward_fuel_act (f : nat) (x : list nat) :
  forward_fuel (S f) h base x = Output x.
Proof.
  cbn [forward_fuel].
  rewrite (hb_act _ _ _ _ _ _ (ms_blocks _ _ _ _ _ _ _ Hstore)).
  by destruct act.
Qed.

Lemma forward_fuel_linear (f : nat) (a : addr) (i n : nat) (x : list nat) :
  linear_at h a i n -> forward_fuel (S f) h a x = linear_shape i n x.
Proof. intros (w & b & Ha & _). cbn [forward_fuel]. by rewrite Ha. Qed.

(** One level of a module call on a container. *)
Lemma forward_fuel_Sequential (f : nat) (m : addr) (cs : list addr)
    (x : list nat) :
  h !! m = Some (Sequential cs) ->
  forward_fuel (S f) h m x = forward_each (forward_fuel f h) cs x.
Proof. intros Hm. cbn [forward_fuel]. by rewrite Hm. Qed.

Lemma forward_fuel_stack (j f : nat) (pre : list nat) :
  j <= k -> j + 2 <= f ->
  forward_fuel f h (base + 2 + 2 * j) (pre ++ [n_network])
  = Output (pre ++ [n_hidden_dimension]).
Proof.
  pose proof (ms_blocks _ _ _ _ _ _ _ Hstore) as Hblocks.
  revert f. induction j as [| j IH]; intros f Hj Hf.
  - destruct f as [| [| f]]; [lia | lia |].
    replace (base + 2 + 2 * 0) with (base + 2) by lia.
    rewrite (forward_fuel_Sequential _ _ _ _ (hb_seq0 _ _ _ _ _ _ Hblocks)).
    cbn [forward_each].
    rewrite (forward_fuel_linear _ _ _ _ _ (hb_first _ _ _ _ _ _ Hblocks)).
    by rewrite linear_shape_fits, forward_fuel_act.
  - destruct f as [| [| f]]; [lia | lia |].
    replace (base + 2 + 2 * S j) with (base + 4 + 2 * j) by lia.
    rewrite (forward_fuel_Sequential _ _ _ _
               (hb_seq _ _ _ _ _ _ Hblocks j ltac:(lia))).
    cbn [forward_each]. rewrite IH by lia.
    rewrite (forward_fuel_linear _ _ _ _ _
               (hb_linear _ _ _ _ _ _ Hblocks j ltac:(lia))).
    by rewrite linear_shape_fits, forward_fuel_act.
Qed.

Lemma forward_fuel_stack_misfit (j f : nat) (x : list nat) :
  last x <> Some n_network -> j <= k -> j + 2 <= f ->
  forward_fuel f h (base + 2 + 2 * j) x = Fails RuntimeError.
Proof.
  pose proof (ms_blocks _ _ _ _ _ _ _ Hstore) as Hblocks.
  intros Hx. revert f. induction j as [| j IH]; intros f Hj Hf.
  - destruct f as [| [| f]]; [lia | lia |].
    replace (base + 2 + 2 * 0) with (base + 2) by lia.
    rewrite (forward_fuel_Sequential _ _ _ _ (hb_seq0 _ _ _ _ _ _ Hblocks)).
    cbn [forward_each].
    rewrite (forward_fuel_linear _ _ _ _ _ (hb_first _ _ _ _ _ _ Hblocks)).
    by rewrite linear_shape_misfit.
  - destruct f as [| [| f]]; [lia | lia |].
    replace (base + 2 + 2 * S j) with (base + 4 + 2 * j) by lia.
    rewrite (forward_fuel_Sequential _ _ _ _
               (hb_seq _ _ _ _ _ _ Hblocks j ltac:(lia))).
    cbn [forward_each]. by rewrite IH by lia.
Qed.

(** With a budget too small for the stack below it, the call of the [j]-th
    container raises on the way down, before any layer has computed. *)
Lemma forward_fuel_stack_raises (j f : nat) (x : list nat) :
  j <= k -> f < j + 2 ->
  forward_fuel f h (base + 2 + 2 * j) x = Fails RecursionError.
Proof.
  pose proof (ms_blocks _ _ _ _ _ _ _ Hstore) as Hblocks.
  revert f. induction j as [| j IH]; intros f Hj Hf.
  - destruct f as [| f]; [done |].
    replace (base + 2 + 2 * 0) with (base + 2) by lia.
    rewrite (forward_fuel_Sequential _ _ _ _ (hb_seq0 _ _ _ _ _ _ Hblocks)).
    cbn [forward_each]. by replace f with 0 by lia.
  - destruct f as [| f]; [done |].
    replace (base + 2 + 2 * S j) with (base + 4 + 2 * j) by lia.
    rewrite (forward_fuel_Sequential _ _ _ _
               (hb_seq _ _ _ _ _ _ Hblocks j ltac:(lia))).
    cbn [forward_each]. by rewrite IH by lia.
Qed.

Lemma forward_mlp_fits (limit : nat) (pre : list nat) :
  k + 3 <= limit ->
  forward limit h (root_of base k) (pre ++ [n_network])
  = Output (pre ++ [n_class]).
Proof.
  intros Hlimit. unfold forward, root_of.
  destruct limit as [| [| f]]; [lia | lia |].
  rewrite (forward_fuel_Sequential _ _ _ _ (ms_root _ _ _ _ _ _ _ Hstore)).
  cbn [forward_each]. rewrite forward_fuel_stack by lia.
  rewrite (forward_fuel_linear _ _ _ _ _ (ms_last _ _ _ _ _ _ _ Hstore)).
  by rewrite linear_shape_fits.
Qed.

Lemma forward_mlp_misfit (limit : nat) (x : list nat) :
  k + 3 <= limit -> last x <> Some n_network ->
  forward limit h (root_of base k) x = Fails RuntimeError.
Proof.
  intros Hlimit Hx. unfold forward, root_of.
  destruct limit as [| [| f]]; [lia | lia |].
  rewrite (forward_fuel_Sequential _ _ _ _ (ms_root _ _ _ _ _ _ _ Hstore)).
  cbn [forward_each]. by rewrite forward_fuel_stack_misfit by (done || lia).
Qed.

Lemma forward_mlp_raises (limit : nat) (x : list nat) :
  limit < k + 3 ->
  forward limit h (root_of base k) x = Fails RecursionError.
Proof.
  intros Hlimit. unfold forward, root_of.
  destruct limit as [| f]; [done |].
  rewrite (forward_fuel_Sequential _ _ _ _ (ms_root _ _ _ _ _ _ _ Hstore)).
  cbn [forward_each]. by rewrite forward_fuel_stack_raises by lia.
Qed.

End BuiltForward.

(** X8.  A built network whose nesting (its hidden-layer count plus two) is
    within the budget of nested module calls takes tensors whose last
    dimension is [n_network] and gives back the same shape with [n_class] in
    its place, so the widths of its layers never clash; on a tensor of any
    other shape the first [Linear] raises [RuntimeError].  With a smaller
    budget the call raises [RecursionError] on every input. *)
Theorem built_forward_shape n_network n_class n_hidden_layers
    n_hidden_dimension activation (call_limit : nat) (s s' : state)
    (root : addr) :
  get_multilayer_perceptron n_network n_class n_hidden_layers
    n_hidden_dimension activation s = Ret root s' ->
  (Z.to_nat (n_hidden_layers - 1) + 3 <= call_limit ->
   (forall pre, forward call_limit (heap s') root (pre ++ [n_network])
                = Output (pre ++ [n_class]))
   /\ (forall x, last x <> Some n_network ->
                 forward call_limit (heap s') root x = Fails RuntimeError))
  /\ (call_limit < Z.to_nat (n_hidden_layers - 1) + 3 ->
      forall x, forward call_limit (heap s') root x = Fails RecursionError).
Proof.
  intros Hrun.
  destruct (build_inv _ _ _ _ _ _ _ _ Hrun)
    as (act & ext & Hact & -> & Hstore & Hext).
  split; [intros Hlimit; split |].
  - intros pre. by apply (forward_mlp_fits _ _ _ _ _ _ _ Hstore).
  - intros x Hx. by apply (forward_mlp_misfit _ _ _ _ _ _ _ Hstore).
  - intros Hlimit x. by apply (forward_mlp_raises _ _ _ _ _ _ _ Hstore).
Qed.

(** ** The sweep over activation functions *)

Lemma evaluate_points_run (call_limit : nat) (net : addr) (n_points : nat)
    (s : state) (y : list nat) :
  forward call_limit (heap s) net [1] = Output y ->
  evaluate_points call_limit net n_points s = Ret tt s.
Proof.
  intros Hfwd. unfold evaluate_points. generalize (seq 0 n_points).
  intros l. induction l as [| x l IH]; [done |].
  cbn [for_each]. unfold bind at 1. unfold bind at 1. unfold call_module.
  rewrite Hfwd. unfold ret at 1. exact IH.
Qed.

Lemma evaluate_points_raises (call_limit : nat) (net : addr) (n_points : nat)
    (s : state) (e : exn) :
  1 <= n_points ->
  forward call_limit (heap s) net [1] = Fails e ->
  evaluate_points call_limit net n_points s = Raise e s.
Proof.
  intros Hn Hfwd. unfold evaluate_points.
  destruct n_points as [| n]; [lia |]. cbn [seq for_each].
  unfold bind at 1. unfold bind at 1. unfold call_module. by rewrite Hfwd.
Qed.

(** The passes over one network, each followed by the evaluation of the
    sample points. *)
Lemma passes_run (apply_limit call_limit n_points : nat) (xs : list nat)
    (s : state) (root : addr) (y : list nat) :
  heap_wf (heap s) -> root < length (heap s) ->
  nested_within (heap s) apply_limit root ->
  forward call_limit (heap s) root [1] = Output y ->
  exists l,
    (forall a, a ∈ l -> exists d, descendant (heap s) d root a)
    /\ for_each xs
         (fun (_ : nat) (_ : unit) =>
            _ <- Module_apply apply_limit init_weights root ;;
            evaluate_points call_limit root n_points)
         tt s
       = Ret tt (reinit_all l s).
Proof.
  revert s. induction xs as [| x xs IH]; intros s Hwf Hroot Hfit Hfwd.
  { exists []. split; [by intros a ?%not_elem_of_nil | done]. }
  set (l1 := visits_fuel apply_limit (heap s) root).
  pose proof (reinit_all_shape l1 s) as Hsh1.
  destruct (IH (reinit_all l1 s)) as (l2 & Hl2 & Hrun).
  { by eapply shape_preserved_wf. }
  { by rewrite <- (proj1 Hsh1). }
  { by eapply nested_within_shape_preserved. }
  { unfold forward. by rewrite (shape_preserved_forward _ _ Hsh1). }
  exists (l1 ++ l2). split.
  - intros a [Ha | Ha]%elem_of_app.
    + by eapply visits_fuel_descendant.
    + destruct (Hl2 a Ha) as (d & Hd). exists d.
      by apply (descendant_shape_preserved _ _ _ _ _ Hsh1).
  - cbn [for_each]. unfold bind at 1. unfold bind at 1.
    rewrite apply_init_weights_run by done. fold l1.
    rewrite (evaluate_points_run _ _ _ _ y).
    + by rewrite reinit_all_app.
    + unfold forward. by rewrite (shape_preserved_forward _ _ Hsh1).
Qed.

Section BuildAndPasses.

Variables (apply_limit call_limit : nat) (num_layers : Z).
Variables (n_hidden_dimension nruns n_points : nat) (activation : string).
Variable s : state.
Hypothesis Hwf : heap_wf (heap s).
Hypothesis Hact : activation = "tanh" \/ activation = "relu".

Let run_network : M unit :=
  net <- get_multilayer_perceptron 1 1 num_layers n_hidden_dimension
           activation ;;
  for_each (seq 0 nruns)
    (fun (_ : nat) (_ : unit) =>
       _ <- Module_apply apply_limit init_weights net ;;
       evaluate_points call_limit net n_points)
    tt.

(** Building a network, passing over it and evaluating it, within both
    budgets: the older objects stay as they are. *)
Lemma build_and_passes_run :
  Z.to_nat (num_layers - 1) + 3 <= apply_limit ->
  Z.to_nat (num_layers - 1) + 3 <= call_limit ->
  exists s',
    run_network s = Ret tt s'
    /\ heap_wf (heap s')
    /\ length (heap s')
       = length (heap s) + (5 + 2 * Z.to_nat (num_layers - 1))
    /\ forall a, a < length (heap s) -> heap s' !! a = heap s !! a.
Proof.
  intros Happly Hcall.
  destruct (activation_of_supported _ Hact) as [act Hact'].
  destruct (build_run 1 1 num_layers n_hidden_dimension
              activation act s Hact') as (s1 & Hrun & Hstore & ext & Hext).
  destruct (build_wf _ _ _ _ _ _ _ _ Hwf Hrun) as [Hwf1 Hroot].
  destruct (passes_run apply_limit call_limit n_points (seq 0 nruns) s1 _ [1]
              Hwf1 Hroot) as (l & Hl & Hpasses).
  { by apply (mlp_nested_within _ _ _ _ _ _ _ Hstore). }
  { by apply (forward_mlp_fits _ _ _ _ _ _ _ Hstore call_limit []). }
  pose proof (reinit_all_shape l s1) as Hsh.
  exists (reinit_all l s1). subst run_network. unfold bind at 1.
  rewrite Hrun. split; [exact Hpasses |].
  split; [by eapply shape_preserved_wf |]. split.
  - rewrite <- (proj1 Hsh), (ms_length _ _ _ _ _ _ _ Hstore). lia.
  - intros a Ha. rewrite reinit_all_frame.
    + rewrite Hext. by apply lookup_app_l.
    + intros (d & Hd)%Hl.
      assert (Hbase : length (heap s)
                      <= length (heap s) + 4 + 2 * Z.to_nat (num_layers - 1))
        by lia.
      pose proof (mlp_descendant_ge _ _ _ _ _ _ _ d _ a Hstore Hbase Hd). lia.
Qed.

(** Outside either budget the first pass, or the first evaluation after
    it, raises. *)
Lemma build_and_passes_raise :
  1 <= nruns ->
  apply_limit < Z.to_nat (num_layers - 1) + 3
  \/ (1 <= n_points /\ call_limit < Z.to_nat (num_layers - 1) + 3) ->
  exists s', run_network s = Raise RecursionError s'.
Proof.
  intros Hn Hdeep.
  destruct (activation_of_supported _ Hact) as [act Hact'].
  destruct (build_run 1 1 num_layers n_hidden_dimension
              activation act s Hact') as (s1 & Hrun & Hstore & ext & Hext).
  destruct (build_wf _ _ _ _ _ _ _ _ Hwf Hrun) as [Hwf1 Hroot].
  subst run_network. unfold bind at 1. rewrite Hrun.
  destruct nruns as [| n]; [lia |]. cbn [seq for_each].
  unfold bind at 1. unfold bind at 1.
  fold (root_of (length (heap s)) (Z.to_nat (num_layers - 1))) in *.
  destruct (decide (apply_limit < Z.to_nat (num_layers - 1) + 3))
    as [Hsmall | Hfits].
  - rewrite (apply_root_raises _ _ _ _ _ _ _ Hstore) by done. by eexists.
  - destruct Hdeep as [? | [Hpoints Hcall]]; [lia |].
    rewrite apply_init_weights_run;
      [| done | done
       | apply (mlp_nested_within _ _ _ _ _ _ _ Hstore); lia].
    set (l := visits_fuel apply_limit (heap s1) _).
    pose proof (reinit_all_shape l s1) as Hsh.
    rewrite (evaluate_points_raises _ _ _ _ RecursionError); [by eexists | done |].
    unfold forward. rewrite (shape_preserved_forward _ _ Hsh).
    by apply (forward_mlp_raises _ _ _ _ _ _ _ Hstore).
Qed.

End BuildAndPasses.

(** X9.  The sweep over ['tanh'] and ['relu'], started on a well-formed
    store, returns whenever the nesting of the networks (the layer count
    plus two) is within the budgets of [apply] and of module calls, whatever
    the width, the number of passes and the number of sample points; it has
    then allocated two networks and changed none of the objects that were
    there before.  When there is a pass to make and the nesting exceeds the
    budget of [apply], or that of module calls with a point to evaluate, it
    raises [RecursionError]. *)
Theorem activation_sweep_runs (apply_limit call_limit : nat) (num_layers : Z)
    (n_hidden_dimension nruns n_points : nat) (s : state) :
  heap_wf (heap s) ->
  (Z.to_nat (num_layers - 1) + 3 <= apply_limit ->
   Z.to_nat (num_layers - 1) + 3 <= call_limit ->
   exists s',
     activation_sweep apply_limit call_limit num_layers n_hidden_dimension
       nruns n_points s = Ret tt s'
     /\ heap_wf (heap s')
     /\ length (heap s')
        = length (heap s) + 2 * (5 + 2 * Z.to_nat (num_layers - 1))
     /\ forall a, a < length (heap s) -> heap s' !! a = heap s !! a)
  /\ (1 <= nruns ->
      apply_limit < Z.to_nat (num_layers - 1) + 3
      \/ (1 <= n_points /\ call_limit < Z.to_nat (num_layers - 1) + 3) ->
      exists s',
        activation_sweep apply_limit call_limit num_layers n_hidden_dimension
          nruns n_points s = Raise RecursionError s').
Proof.
  intros Hwf. unfold activation_sweep. cbn [for_each]. split.
  - intros Happly Hcall.
    destruct (build_and_passes_run apply_limit call_limit num_layers
                n_hidden_dimension nruns n_points "tanh" s Hwf
                ltac:(by left) Happly Hcall)
      as (s1 & Hrun1 & Hwf1 & Hlen1 & Hfr1).
    destruct (build_and_passes_run apply_limit call_limit num_layers
                n_hidden_dimension nruns n_points "relu" s1 Hwf1
                ltac:(by right) Happly Hcall)
      as (s2 & Hrun2 & Hwf2 & Hlen2 & Hfr2).
    exists s2. unfold bind at 1. rewrite Hrun1.
    unfold bind at 1. rewrite Hrun2. split; [done |]. split; [done |].
    split; [lia |]. intros a Ha. rewrite Hfr2 by lia. by apply Hfr1.
  - intros Hn Hdeep.
    destruct (build_and_passes_raise apply_limit call_limit num_layers
                n_hidden_dimension nruns n_points "tanh" s Hwf
                ltac:(by left) Hn Hdeep) as (s1 & Hraise).
    exists s1. unfold bind at 1. by rewrite Hraise.
Qed.

(** ** The further properties at concrete inputs *)

Lemma demo_build :
  get_multilayer_perceptron 2 1 3 4 "tanh" empty_state
  = Ret demo_root demo_state.
Proof. vm_compute. reflexivity. Defined.

Lemma demo_build2 :
  get_multilayer_perceptron 2 1 7 4 "tanh" demo_state
  = Ret demo_root2 demo_state2.
Proof. vm_compute. reflexivity. Defined.

Lemma empty_state_wf : heap_wf (heap empty_state).
Proof. apply heap_wf_check. reflexivity. Defined.

Lemma build_only_allocates_witness :
  get_multilayer_perceptron 2 1 3 4 "tanh" empty_state
  = Ret demo_root demo_state
  /\ exists ext,
       heap demo_state = heap empty_state ++ ext
       /\ length ext = 5 + 2 * Z.to_nat (3 - 1)
       /\ S demo_root = length (heap demo_state)
       /\ (heap_wf (heap empty_state) ->
           forall m, m < length (heap empty_state) ->
                     layers (heap demo_state) m = layers (heap empty_state) m).
Proof.
  split; [exact demo_build |].
  exact (build_only_allocates 2 1 3 4 "tanh" empty_state demo_state demo_root
           demo_build).
Defined.

Lemma count_below_one_is_one_witness :
  (0 <= 1)%Z
  /\ get_multilayer_perceptron 1 1 0 32 "relu" empty_state
     = get_multilayer_perceptron 1 1 1 32 "relu" empty_state.
Proof.
  split; [lia |].
  apply (count_below_one_is_one 1 1 0 32 "relu" empty_state). lia.
Defined.

Lemma built_param_count_witness :
  get_multilayer_perceptron 2 1 3 4 "tanh" empty_state
  = Ret demo_root demo_state
  /\ param_count (heap demo_state) demo_root
     = (4 * 2 + 4) + Z.to_nat (3 - 1) * (4 * 4 + 4) + (1 * 4 + 1).
Proof.
  split; [exact demo_build |].
  exact (built_param_count 2 1 3 4 "tanh" empty_state demo_state demo_root
           demo_build).
Defined.

Lemma apply_touches_only_descendants_witness :
  heap_wf (heap demo_state2) /\ demo_root < length (heap demo_state2)
  /\ exists s',
       ends_in (Module_apply 1000 init_weights demo_root demo_state2)
         demo_root s'
       /\ (nested_within (heap demo_state2) 1000 demo_root ->
           Module_apply 1000 init_weights demo_root demo_state2
           = Ret demo_root s')
       /\ (forall a, (forall d, ~ descendant (heap demo_state2) d demo_root a) ->
                     heap s' !! a = heap demo_state2 !! a)
       /\ (forall a, demo_root < a -> heap s' !! a = heap demo_state2 !! a).
Proof.
  assert (Hwf : heap_wf (heap demo_state2))
    by (apply heap_wf_check; vm_compute; reflexivity).
  assert (Hroot : demo_root < length (heap demo_state2))
    by (vm_compute; lia).
  split; [exact Hwf |]. split; [exact Hroot |].
  exact (apply_touches_only_descendants 1000 demo_state2 demo_root Hwf Hroot).
Defined.


Lemma last_pass_overwrites_witness :
  heap_wf (heap demo_state) /\ demo_root < length (heap demo_state)
  /\ nested_within (heap demo_state) 1000 demo_root
  /\ exists s_mid s',
       repeat_apply 1000 4 init_weights demo_root demo_state = Ret tt s_mid
       /\ repeat_apply 1000 5 init_weights demo_root demo_state = Ret tt s'
       /\ forall d a,
            descendant (heap demo_state) d demo_root a ->
            is_Linear (heap demo_state) a = true ->
            exists o', heap s' !! a = Some o'
                       /\ redrawn (rng s_mid) (rng s') o'.
Proof.
  split; [exact demo_state_wf |]. split; [exact demo_root_valid |].
  split; [exact demo_nested |].
  exact (last_pass_overwrites 1000 4 demo_state demo_root
           demo_state_wf demo_root_valid demo_nested).
Defined.

Lemma networks_initialised_apart_witness :
  heap_wf (heap empty_state)
  /\ get_multilayer_perceptron 2 1 3 4 "tanh" empty_state
     = Ret demo_root demo_state
  /\ get_multilayer_perceptron 2 1 7 4 "tanh" demo_state
     = Ret demo_root2 demo_state2
  /\ (exists s3,
        ends_in (Module_apply 1000 init_weights demo_root2 demo_state2)
          demo_root2 s3
        /\ (nested_within (heap demo_state2) 1000 demo_root2 ->
            Module_apply 1000 init_weights demo_root2 demo_state2
            = Ret demo_root2 s3)
        /\ forall a, a < length (heap demo_state) ->
                     heap s3 !! a = heap demo_state !! a)
  /\ (exists s3,
        ends_in (Module_apply 1000 init_weights demo_root demo_state2)
          demo_root s3
        /\ (nested_within (heap demo_state2) 1000 demo_root ->
            Module_apply 1000 init_weights demo_root demo_state2
            = Ret demo_root s3)
        /\ (forall a, length (heap demo_state) <= a ->
                      heap s3 !! a = heap demo_state2 !! a)
        /\ exists s4,
             ends_in (Module_apply 1000 init_weights demo_root2 s3)
               demo_root2 s4
             /\ (nested_within (heap demo_state2) 1000 demo_root2 ->
                 Module_apply 1000 init_weights demo_root2 s3
                 = Ret demo_root2 s4)
             /\ forall a, a < length (heap demo_state) ->
                          heap s4 !! a = heap s3 !! a).
Proof.
  split; [exact empty_state_wf |]. split; [exact demo_build |].
  split; [exact demo_build2 |].
  exact (networks_initialised_apart 2 1 3 4 "tanh" 2 1 7 4 "tanh" 1000
           empty_state demo_state demo_state2 demo_root demo_root2
           empty_state_wf demo_build demo_build2).
Defined.

Lemma built_forward_shape_witness :
  get_multilayer_perceptron 2 1 3 4 "tanh" empty_state
  = Ret demo_root demo_state
  /\ (Z.to_nat (3 - 1) + 3 <= 250 ->
      (forall pre, forward 250 (heap demo_state) demo_root (pre ++ [2])
                   = Output (pre ++ [1]))
      /\ (forall x, last x <> Some 2 ->
                    forward 250 (heap demo_state) demo_root x
                    = Fails RuntimeError))
  /\ (250 < Z.to_nat (3 - 1) + 3 ->
      forall x, forward 250 (heap demo_state) demo_root x
                = Fails RecursionError).
Proof.
  split; [exact demo_build |].
  exact (built_forward_shape 2 1 3 4 "tanh" 250 empty_state demo_state
           demo_root demo_build).
Defined.

Lemma activation_sweep_runs_witness :
  heap_wf (heap empty_state)
  /\ (Z.to_nat (6 - 1) + 3 <= 1000 ->
      Z.to_nat (6 - 1) + 3 <= 250 ->
      exists s',
        activation_sweep 1000 250 6 32 5 400 empty_state = Ret tt s'
        /\ heap_wf (heap s')
        /\ length (heap s')
           = length (heap empty_state) + 2 * (5 + 2 * Z.to_nat (6 - 1))
        /\ forall a, a < length (heap empty_state) ->
                     heap s' !! a = heap empty_state !! a)
  /\ (1 <= 5 ->
      1000 < Z.to_nat (6 - 1) + 3
      \/ (1 <= 400 /\ 250 < Z.to_nat (6 - 1) + 3) ->
      exists s',
        activation_sweep 1000 250 6 32 5 400 empty_state
        = Raise RecursionError s').
Proof.
  split; [exact empty_state_wf |].
  exact (activation_sweep_runs 1000 250 6 32 5 400 empty_state
           empty_state_wf).
Defined.

Lemma init_keeps_architecture_witness :
  heap_wf (heap demo_state) /\ demo_root < length (heap demo_state)
  /\ exists s',
       ends_in (repeat_apply 1000 5 init_weights demo_root demo_state) tt s'
       /\ (nested_within (heap demo_state) 1000 demo_root ->
           repeat_apply 1000 5 init_weights demo_root demo_state = Ret tt s')
       /\ forall m,
            layers (heap s') m = layers (heap demo_state) m
            /\ describe (heap s') m = describe (heap demo_state) m
            /\ forall call_limit x,
                 forward call_limit (heap s') m x
                 = forward call_limit (heap demo_state) m x.
Proof.
  split; [exact demo_state_wf |]. split; [exact demo_root_valid |].
  exact (init_keeps_architecture 1000 5 demo_state demo_root
           demo_state_wf demo_root_valid).
Defined.

Example demo_forward :
  forward 250 (heap demo_state) demo_root [2] = Output [1]
  /\ forward 250 (heap demo_state) demo_root [100; 2] = Output [100; 1]
  /\ forward 250 (heap demo_state) demo_root [3] = Fails RuntimeError
  /\ forward 250 (heap demo_state) demo_root [] = Fails RuntimeError
  /\ forward 5 (heap demo_state) demo_root [2] = Output [1]
  /\ forward 4 (heap demo_state) demo_root [2] = Fails RecursionError
  /\ Module_apply 4 init_weights demo_root demo_state
     = Raise RecursionError demo_state
  /\ param_count (heap demo_state) demo_root = 57
  /\ visits (heap demo_state2) demo_root2
     = [10; 9; 11; 12; 9; 13; 14; 9; 15; 16; 9; 17; 18; 9; 19; 20; 9; 21;
        22; 9; 23; 24; 25].
Proof. vm_compute. repeat split; reflexivity. Qed.

Example demo_sweep :
  match activation_sweep 8 8 6 2 2 3 empty_state with
  | Ret _ s' => length (heap s') = 30
  | _ => False
  end
  /\ match activation_sweep 7 8 6 2 2 3 empty_state with
     | Raise RecursionError s' => length (heap s') = 15 /\ rng s' = 37
     | _ => False
     end
  /\ match activation_sweep 8 7 6 2 2 3 empty_state with
     | Raise RecursionError s' => length (heap s') = 15 /\ rng s' = 74
     | _ => False
     end.
Proof. vm_compute. repeat split; reflexivity. Qed.
